(** * Blink-PIN registration: a shallow embedding of [blink_utils.py] and
    [register_pin.py], and the properties of its blink pipeline and
    credential store.

    Numbers are modelled as the interpreter has them: a Python [float] is an
    IEEE 754 binary64 value (Rocq's primitive [float]), a NumPy [float32] is a
    binary32 value ([spec_float] at precision 24), a Python [int] is a [Z].
    A Python [str] is the [string] of its UTF-8 bytes, a lone surrogate (as
    [input] gives for an undecodable byte, or a JSON escape) being written
    as the three bytes of its code point; a [dict] with string keys is a
    [gmap string _]. *)

From Stdlib Require Import ZArith List Floats.PrimFloat Floats.SpecFloat Floats.FloatOps.
From stdpp Require Import base option list gmap strings.

Set Warnings "-register-all".

#[local] Open Scope Z_scope.

(** ** Exceptions *)

(** The exceptions the modelled code can meet; each is a subclass of
    Python's [Exception], so [except Exception] catches every one. *)
Inductive exn : Type :=
  | IndexError
  | TypeError
  | AttributeError
  | OSError
  | UnicodeDecodeError
  | UnicodeEncodeError
  | JSONDecodeError
  | ValueError
  | OverflowError
  | RecursionError.

Inductive result (A : Type) : Type :=
  | Ok (a : A)
  | Raise (e : exn).
Arguments Ok {A} a.
Arguments Raise {A} e.

#[global] Instance result_ret : MRet result := fun A a => Ok a.
#[global] Instance result_bind : MBind result := fun A B k r =>
  match r with
  | Ok a => k a
  | Raise e => Raise e
  end.

(** [try: body / except Exception: handler] *)
Definition try_except {A : Type} (body handler : result A) : result A :=
  match body with
  | Ok a => Ok a
  | Raise _ => handler
  end.

(** ** Python objects that [json.load] returns and [json.dump] accepts *)

Inductive json : Type :=
  | JNone
  | JBool (b : bool)
  | JInt (n : Z)
  | JFloat (f : float)
  | JStr (s : string)
  | JList (l : list json)
  | JDict (d : gmap string json).

(** ** The file [users.json] and its directory

    A file is described by what reading it does: [Absent] when
    [os.path.exists] is false, [Unreadable e] when [open] or [json.load]
    raises [e] (no permission, bytes that are not UTF-8, text that is not
    JSON), [Holds data] when [json.load] returns [data]. A [json.dump] that
    raises nothing, followed by [json.load], gives the dumped object back. *)

Inductive file : Type :=
  | Absent
  | Unreadable (e : exn)
  | Holds (data : json).

(** The file with its permissions: [users_json] is what the bytes on disk
    hold, as a reader who may open them finds it. *)
Record fsys : Type := mk_fsys {
  users_json : file;
  readable : bool; (* whether [open(path, "r")] succeeds when the file exists *)
  writable : bool  (* whether [open(path, "w")] succeeds *)
}.

(** The file as [open(path, "r")] and [json.load] find it. *)
Definition readable_file (fs : fsys) : file :=
  match users_json fs with
  | Absent => Absent
  | f => if readable fs then f else Unreadable OSError
  end.

(** ** NumPy [float32] scalars *)

Module f32.
Definition prec : Z := 24.
Definition emax : Z := 128.

Definition add : spec_float -> spec_float -> spec_float := SFadd prec emax.
Definition sub : spec_float -> spec_float -> spec_float := SFsub prec emax.
Definition mul : spec_float -> spec_float -> spec_float := SFmul prec emax.
Definition div : spec_float -> spec_float -> spec_float := SFdiv prec emax.
Definition sqrt : spec_float -> spec_float := SFsqrt prec emax.

Definition zero : spec_float := S754_zero false.
Definition two : spec_float := S754_finite false 8388608 (-22).

(** The cast binary64 -> binary32 of [np.array(..., dtype=np.float32)]:
    round to nearest, ties to even; too large a value becomes an infinity. *)
Definition of_float (x : float) : spec_float :=
  match Prim2SF x with
  | S754_finite s m e => binary_round prec emax s m e
  | y => y
  end.

(** Widening to binary64 ([float(x)], or NumPy's promotion to [float64]);
    every binary32 value is a binary64 value, so nothing is rounded. *)
Definition to_float (x : spec_float) : float :=
  match x with
  | S754_finite s m e => SF2Prim (binary_round FloatOps.prec FloatOps.emax s m e)
  | y => SF2Prim y
  end.
End f32.

(** How NumPy types [python_float * float32_scalar]: before NumPy 2 the
    product (and the quotient that follows) is a [float64]; from NumPy 2 on
    (NEP 50) the Python float is weak and both stay [float32]. *)
Inductive promotion : Type := Legacy | NEP50.

(** ** [hashlib.sha256] (FIPS 180-4), on 32-bit words kept in [Z] *)

Module hashlib.
Definition mask32 : Z := 0xffffffff.
Definition add32 (a b : Z) : Z := Z.land (a + b) mask32.
Definition rotr (n x : Z) : Z :=
  Z.lor (Z.shiftr x n) (Z.land (Z.shiftl x (32 - n)) mask32).
Definition xor3 (a b c : Z) : Z := Z.lxor (Z.lxor a b) c.

Definition Ch (x y z : Z) : Z := Z.lxor (Z.land x y) (Z.land (Z.lxor x mask32) z).
Definition Maj (x y z : Z) : Z := xor3 (Z.land x y) (Z.land x z) (Z.land y z).
Definition Sigma0 (x : Z) : Z := xor3 (rotr 2 x) (rotr 13 x) (rotr 22 x).
Definition Sigma1 (x : Z) : Z := xor3 (rotr 6 x) (rotr 11 x) (rotr 25 x).
Definition sigma0 (x : Z) : Z := xor3 (rotr 7 x) (rotr 18 x) (Z.shiftr x 3).
Definition sigma1 (x : Z) : Z := xor3 (rotr 17 x) (rotr 19 x) (Z.shiftr x 10).

(** The first 64 primes, by trial division. *)
Definition is_prime (n : Z) : bool :=
  (1 <? n) && forallb (fun d => negb (n mod Z.of_nat d =? 0)) (seq 2 (Z.to_nat n - 2)).

Definition primes : list Z := filter (fun n => is_prime n) (map Z.of_nat (seq 2 310)).

(** Integer cube root, one bit at a time from bit [b - 1] down. *)
Fixpoint icbrt (b : nat) (n r : Z) : Z :=
  match b with
  | O => r
  | S b' =>
      let c := r + 2 ^ Z.of_nat b' in
      icbrt b' n (if c * c * c <=? n then c else r)
  end.

(** The round constants: the first 32 bits of the fractional parts of the
    cube roots of the first 64 primes. *)
Definition K : list Z :=
  Eval vm_compute in map (fun p => Z.land (icbrt 36 (p * 2 ^ 96) 0) mask32) primes.

(** The initial hash value: the first 32 bits of the fractional parts of the
    square roots of the first 8 primes. *)
Definition H0 : list Z :=
  Eval vm_compute in map (fun p => Z.land (Z.sqrt (p * 2 ^ 64)) mask32) (take 8 primes).

Definition bytes_of (s : string) : list Z :=
  map (fun c => Z.of_N (Ascii.N_of_ascii c)) (String.list_ascii_of_string s).

(** The message, a 1 bit, zero bits up to 56 modulo 64 bytes, and the
    length in bits as a 64-bit big-endian number. *)
Definition pad (msg : list Z) : list Z :=
  let n := Z.of_nat (length msg) in
  let zeros := Z.to_nat ((55 - n) mod 64) in
  let bits := 8 * n in
  msg ++ [0x80] ++ replicate zeros 0
      ++ map (fun i => Z.land (Z.shiftr bits (8 * (7 - Z.of_nat i))) 0xff) (seq 0 8).

Fixpoint words (bs : list Z) : list Z :=
  match bs with
  | b0 :: b1 :: b2 :: b3 :: rest =>
      Z.lor (Z.lor (Z.shiftl b0 24) (Z.shiftl b1 16)) (Z.lor (Z.shiftl b2 8) b3)
        :: words rest
  | _ => []
  end.

Fixpoint blocks (fuel : nat) (ws : list Z) : list (list Z) :=
  match fuel, ws with
  | S fuel', _ :: _ => take 16 ws :: blocks fuel' (drop 16 ws)
  | _, _ => []
  end.

Fixpoint schedule (n : nat) (w : list Z) : list Z :=
  match n with
  | O => w
  | S n' =>
      let t := length w in
      let g i := nth (t - i) w 0 in
      schedule n' (w ++ [add32 (add32 (sigma1 (g 2%nat)) (g 7%nat))
                               (add32 (sigma0 (g 15%nat)) (g 16%nat))])
  end.

Definition round (v : list Z) (kw : Z * Z) : list Z :=
  match v with
  | [a; b; c; d; e; f; g; h] =>
      let t1 := add32 (add32 (add32 h (Sigma1 e)) (add32 (Ch e f g) (fst kw))) (snd kw) in
      let t2 := add32 (Sigma0 a) (Maj a b c) in
      [add32 t1 t2; a; b; c; add32 d t1; e; f; g]
  | _ => v
  end.

Definition compress (h : list Z) (block : list Z) : list Z :=
  let w := schedule 48 block in
  let v := fold_left round (zip K w) h in
  zip_with add32 h v.

Definition hex_digit (d : Z) : Ascii.ascii :=
  Ascii.ascii_of_N (Z.to_N (if d <? 10 then 48 + d else 87 + d)).

Definition hex_word (w : Z) : string :=
  String.string_of_list_ascii
    (map (fun i => hex_digit (Z.land (Z.shiftr w (4 * (7 - Z.of_nat i))) 0xf)) (seq 0 8)).

Definition sha256_hexdigest (msg : string) : string :=
  let ws := words (pad (bytes_of msg)) in
  let h := fold_left compress (blocks (length ws) ws) H0 in
  String.concat "" (map hex_word h).
End hashlib.

(** ** Strings that UTF-8 can encode *)

(** A scan of the bytes of a str: [pending] continuation bytes are still to
    come, the next of them within [lo..hi]. The ranges leave out overlong
    forms, code points past U+10FFFF and the surrogates U+D800..U+DFFF. *)
Fixpoint utf8_scan (pending : nat) (lo hi : Z) (bs : list Z) : bool :=
  match bs with
  | [] => match pending with O => true | S _ => false end
  | b :: bs' =>
      match pending with
      | S p => (lo <=? b) && (b <=? hi) && utf8_scan p 0x80 0xbf bs'
      | O =>
          if b <? 0x80 then utf8_scan 0 0x80 0xbf bs'
          else if (0xc2 <=? b) && (b <=? 0xdf) then utf8_scan 1 0x80 0xbf bs'
          else if b =? 0xe0 then utf8_scan 2 0xa0 0xbf bs'
          else if b =? 0xed then utf8_scan 2 0x80 0x9f bs'
          else if (0xe1 <=? b) && (b <=? 0xef) then utf8_scan 2 0x80 0xbf bs'
          else if b =? 0xf0 then utf8_scan 3 0x90 0xbf bs'
          else if b =? 0xf4 then utf8_scan 3 0x80 0x8f bs'
          else if (0xf1 <=? b) && (b <=? 0xf3) then utf8_scan 3 0x80 0xbf bs'
          else false
      end
  end.

(** Whether [s.encode()] returns: the str holds no lone surrogate. *)
Definition encodable (s : string) : bool :=
  utf8_scan 0 0x80 0xbf (hashlib.bytes_of s).

(** ** blink_utils.py *)

Module blink_utils.

Definition EAR_THRESHOLD : float := 0.25%float.
Definition BLINK_DURATION_THRESHOLD : float := 0x1.999999999999ap-2%float.
Definition MIN_BLINK_INTERVAL : float := 0.5%float.
Definition CONSEC_FRAMES : Z := 3.
Definition MAX_BLINKS : Z := 4.

Inductive blink_type : Type := quick | long.

Definition BLINK_TO_DIGIT (b : blink_type) : string :=
  match b with
  | quick => "0"
  | long => "1"
  end.

(** A 2D point, as [get_landmark_coords] produces them and as the
    annotation [List[List[float]]] of [calculate_ear] types them. *)
Definition point : Type := float * float.

(** A row of [points], the array [np.array(eye_points, dtype=np.float32)]. *)
Definition row : Type := spec_float * spec_float.

Definition np_array_f32 (eye_points : list point) : list row :=
  map (fun p => (f32.of_float (fst p), f32.of_float (snd p))) eye_points.

(** [points[i]]: an index past the end raises. *)
Definition getitem (points : list row) (i : nat) : result row :=
  match points !! i with
  | Some r => Ok r
  | None => Raise IndexError
  end.

(** [np.linalg.norm(p - q)] for two rows: the elementwise difference, then
    the square root of its dot product with itself, all in [float32]. *)
Definition norm_diff (p q : row) : spec_float :=
  let dx := f32.sub (fst p) (fst q) in
  let dy := f32.sub (snd p) (snd q) in
  f32.sqrt (f32.add (f32.mul dx dx) (f32.mul dy dy)).

(** [float((A + B) / (2.0 * C))] *)
Definition ear_ratio (pr : promotion) (A B C : spec_float) : float :=
  match pr with
  | NEP50 => f32.to_float (f32.div (f32.add A B) (f32.mul f32.two C))
  | Legacy => (f32.to_float (f32.add A B) / (2 * f32.to_float C))%float
  end.

Definition calculate_ear (pr : promotion) (eye_points : list point) : result float :=
  let points := np_array_f32 eye_points in
  p1 ← getitem points 1;
  p5 ← getitem points 5;
  let A := norm_diff p1 p5 in
  p2 ← getitem points 2;
  p4 ← getitem points 4;
  let B := norm_diff p2 p4 in
  p0 ← getitem points 0;
  p3 ← getitem points 3;
  let C := norm_diff p0 p3 in
  if SFeqb C f32.zero then Ok 0%float
  else Ok (ear_ratio pr A B C).

(** [hash_pin]; [pin.encode()] is the UTF-8 bytes of [pin], and raises when
    [pin] holds a lone surrogate. *)
Definition hash_pin (pin : string) : result string :=
  if encodable pin then Ok (hashlib.sha256_hexdigest pin)
  else Raise UnicodeEncodeError.

(** [len(s)] counts code points: the bytes that are not UTF-8
    continuation bytes [10xxxxxx]. *)
Definition py_len (s : string) : Z :=
  Z.of_nat (length (filter (fun b => Z.land b 0xc0 ≠ 0x80) (hashlib.bytes_of s))).

Definition os_path_exists (f : file) : bool :=
  match f with
  | Absent => false
  | _ => true
  end.

(** [with open(path, "r", encoding="utf-8") as f: data = json.load(f)] *)
Definition open_json_load (f : file) : result json :=
  match f with
  | Absent => Raise OSError
  | Unreadable e => Raise e
  | Holds data => Ok data
  end.

Definition empty_store : json := JDict {[ "users" := JDict ∅ ]}.

Definition load_users (f : file) : result json :=
  if negb (os_path_exists f) then Ok empty_store
  else
    try_except
      (data ← open_json_load f;
       match data with
       | JDict d =>
           match d !! "users" with
           | None => Ok empty_store
           | Some (JDict _) => Ok data
           | Some _ => Ok (JDict (<["users" := JDict ∅]> d))
           end
       | _ => Ok empty_store
       end)
      (Ok empty_store).

(** [db.setdefault("users", {})], for its effect on [db] *)
Definition setdefault_users (db : json) : result json :=
  match db with
  | JDict d =>
      match d !! "users" with
      | Some _ => Ok db
      | None => Ok (JDict (<["users" := JDict ∅]> d))
      end
  | _ => Raise AttributeError
  end.

(** [db["users"][username] = record], for its effect on [db] *)
Definition setitem_user (db : json) (username : string) (record : json) : result json :=
  match db with
  | JDict d =>
      match d !! "users" with
      | Some (JDict users) =>
          Ok (JDict (<["users" := JDict (<[username := record]> users)]> d))
      | _ => Raise TypeError
      end
  | _ => Raise TypeError
  end.

(** The record of lines 148-152, given the digest. *)
Definition pin_record (pin_hash pin_plain : string) (now : float) : json :=
  JDict {[ "pin_hash" := JStr pin_hash;
           "pin_length" := JInt (py_len pin_plain);
           "updated_at" := JFloat now ]}.

Section Dump.
(** The exception, if any, that [json.dump(data, f, ensure_ascii=False,
    indent=2)] raises on [data] while it writes: [UnicodeEncodeError] for a
    string that UTF-8 cannot encode, and whatever the interpreter raises for
    an integer or a nesting beyond its limits. *)
Variable json_dump_error : json -> option exn.

(** [open(path, "w")] empties the file before anything is written; when
    [json.dump] raises, what is left is the beginning of the text, which is
    not JSON. *)
Definition save_users (data : json) (fs : fsys) : result unit * fsys :=
  if writable fs then
    match json_dump_error data with
    | None =>
        (Ok tt, {| users_json := Holds data; readable := readable fs; writable := true |})
    | Some e =>
        (Raise e,
         {| users_json := Unreadable JSONDecodeError;
            readable := readable fs; writable := true |})
    end
  else (Raise OSError, fs).

(** [now] is what [time.time()] returns. *)
Definition set_user_pin (username pin_plain : string) (now : float) (fs : fsys)
  : result unit * fsys :=
  match
    db ← load_users (readable_file fs);
    db ← setdefault_users db;
    pin_hash ← hash_pin pin_plain;
    setitem_user db username (pin_record pin_hash pin_plain now)
  with
  | Ok db => save_users db fs
  | Raise e => (Raise e, fs)
  end.
End Dump.

(** Python truth value of an object ([if not user]) *)
Definition truthy (v : json) : bool :=
  match v with
  | JNone => false
  | JBool b => b
  | JInt n => negb (n =? 0)
  | JFloat f => negb (PrimFloat.eqb f 0)
  | JStr s => negb (String.eqb s "")
  | JList l => match l with [] => false | _ => true end
  | JDict d => negb (bool_decide (d = ∅))
  end.

(** [db.get("users", {}).get(username)] *)
Definition get_user (db : json) (username : string) : result json :=
  match db with
  | JDict d =>
      match default (JDict ∅) (d !! "users") with
      | JDict users => Ok (default JNone (users !! username))
      | _ => Raise AttributeError
      end
  | _ => Raise AttributeError
  end.

Definition get_user_pin_hash (username : string) (f : file) : result json :=
  db ← load_users f;
  user ← get_user db username;
  if negb (truthy user) then Ok JNone
  else
    match user with
    | JDict r => Ok (default JNone (r !! "pin_hash"))
    | _ => Raise AttributeError
    end.

End blink_utils.


(** ** register_pin.py *)

Module register_pin.
Import blink_utils.

(** The local variables of [main] that live across loop iterations. *)
Record State : Type := mkState {
  blink_sequence : list blink_type;
  frame_counter : Z;
  ear_history : list float;
  is_blinking : bool;
  blink_start_time : float;
  last_blink_time : float;
  consec_blinks : Z
}.

(** Lines 58-64. *)
Definition initial_state : State :=
  {| blink_sequence := [];
     frame_counter := 0;
     ear_history := [];
     is_blinking := false;
     blink_start_time := 0%float;
     last_blink_time := 0%float;
     consec_blinks := 0 |}.

(** What [main] prints; drawing on the frame is left out. *)
Inductive output : Type :=
  | Banner
  | ErrorEmptyUsername
  | ErrorNoCamera
  | CameraInitialized
  | ErrorReadFrame
  | BlinkStart (smooth_ear : float)
  | Detected (b : blink_type) (blink_duration : float) (digit : string)
  | DebugEar (smooth_ear : float)
  | QuitRequested
  | Resetting
  | CaptureComplete
  | ShowSequence (seq : list blink_type) (pin_str : string)
  | Success (username : string)
  | Incomplete.

(** [np.mean] of a non-empty list of fewer than 8 Python floats: NumPy
    adds the [float64] elements from left to right, starting from the
    additive identity, and divides by their number. *)
Definition np_mean (l : list float) : float :=
  (fold_left PrimFloat.add l 0 / SF2Prim (binary_normalize FloatOps.prec FloatOps.emax
                                            (Z.of_nat (length l)) 0 false))%float.

(** Lines 92-96: the smoother. Returns the new history and [smooth_ear]. *)
Definition smooth (ear_history : list float) (avg_ear : float) : list float * float :=
  let h := ear_history ++ [avg_ear] in
  let h := if 5 <? Z.of_nat (length h) then drop 1 h else h in
  (h, match h with [] => avg_ear | _ => np_mean h end).

(** Lines 130-137: blink type and digit from the duration. *)
Definition classify (blink_duration : float) : blink_type * string :=
  if (blink_duration <? BLINK_DURATION_THRESHOLD)%float then (quick, "0")
  else (long, "1").

(** Lines 108-155: blink detection on one smoothed sample. *)
Definition detect (smooth_ear current_time : float) (st : State) : State * list output :=
  if (smooth_ear <? EAR_THRESHOLD)%float then
    let consec := consec_blinks st + 1 in
    if negb (is_blinking st) && (CONSEC_FRAMES <=? consec) then
      if (MIN_BLINK_INTERVAL <? current_time - last_blink_time st)%float then
        ({| blink_sequence := blink_sequence st;
            frame_counter := frame_counter st;
            ear_history := ear_history st;
            is_blinking := true;
            blink_start_time := current_time;
            last_blink_time := last_blink_time st;
            consec_blinks := consec |},
         [BlinkStart smooth_ear])
      else
        ({| blink_sequence := blink_sequence st;
            frame_counter := frame_counter st;
            ear_history := ear_history st;
            is_blinking := is_blinking st;
            blink_start_time := blink_start_time st;
            last_blink_time := last_blink_time st;
            consec_blinks := consec |},
         [])
    else
      ({| blink_sequence := blink_sequence st;
          frame_counter := frame_counter st;
          ear_history := ear_history st;
          is_blinking := is_blinking st;
          blink_start_time := blink_start_time st;
          last_blink_time := last_blink_time st;
          consec_blinks := consec |},
       [])
  else
    if is_blinking st then
      let blink_duration := (current_time - blink_start_time st)%float in
      if Z.of_nat (length (blink_sequence st)) <? MAX_BLINKS then
        let '(b, digit) := classify blink_duration in
        ({| blink_sequence := blink_sequence st ++ [b];
            frame_counter := frame_counter st;
            ear_history := ear_history st;
            is_blinking := false;
            blink_start_time := blink_start_time st;
            last_blink_time := current_time;
            consec_blinks := 0 |},
         [Detected b blink_duration digit])
      else
        ({| blink_sequence := blink_sequence st;
            frame_counter := frame_counter st;
            ear_history := ear_history st;
            is_blinking := false;
            blink_start_time := blink_start_time st;
            last_blink_time := last_blink_time st;
            consec_blinks := 0 |},
         [])
    else
      ({| blink_sequence := blink_sequence st;
          frame_counter := frame_counter st;
          ear_history := ear_history st;
          is_blinking := is_blinking st;
          blink_start_time := blink_start_time st;
          last_blink_time := last_blink_time st;
          consec_blinks := 0 |},
       []).

(** The eye landmarks of one detected face in pixel coordinates, as
    [get_landmark_coords] returns them for the left and the right eye. *)
Record face : Type := mkFace {
  left_eye : list point;
  right_eye : list point
}.

(** Lines 85-178: the body of [for face_landmarks in ...]. The drawing of
    lines 98-105 and 158-175 is left out; it needs the pixel coordinates to
    fit 32 bits, as those of a camera frame do. *)
Definition process_face (pr : promotion) (f : face) (current_time : float) (st : State)
  : result (State * list output) :=
  left_ear ← calculate_ear pr (left_eye f);
  right_ear ← calculate_ear pr (right_eye f);
  let avg_ear := ((left_ear + right_ear) / 2)%float in
  let '(h, smooth_ear) := smooth (ear_history st) avg_ear in
  let st := {| blink_sequence := blink_sequence st;
               frame_counter := frame_counter st;
               ear_history := h;
               is_blinking := is_blinking st;
               blink_start_time := blink_start_time st;
               last_blink_time := last_blink_time st;
               consec_blinks := consec_blinks st |} in
  let '(st, out) := detect smooth_ear current_time st in
  Ok (st, out ++ (if frame_counter st mod 60 =? 0 then [DebugEar smooth_ear] else [])).

Fixpoint process_faces (pr : promotion) (fs : list face) (current_time : float) (st : State)
  : result (State * list output) :=
  match fs with
  | [] => Ok (st, [])
  | f :: fs' =>
      '(st, out) ← process_face pr f current_time st;
      '(st, out') ← process_faces pr fs' current_time st;
      Ok (st, out ++ out')
  end.

(** What one pass through the loop reads from the outside: the camera
    ([ret]), the landmark provider, the clock and the keyboard. *)
Record frame_input : Type := mkFrame {
  ret : bool;
  multi_face_landmarks : list face;
  current_time : float;
  waitKey : Z
}.

Definition ord_q : Z := 113.
Definition ord_r : Z := 114.

(** Lines 70-237: one pass through [while True]. The boolean tells whether
    the loop is left ([break]). *)
Definition loop_body (pr : promotion) (i : frame_input) (st : State)
  : result (State * list output * bool) :=
  if negb (ret i) then Ok (st, [ErrorReadFrame], true)
  else
    let st := {| blink_sequence := blink_sequence st;
                 frame_counter := frame_counter st + 1;
                 ear_history := ear_history st;
                 is_blinking := is_blinking st;
                 blink_start_time := blink_start_time st;
                 last_blink_time := last_blink_time st;
                 consec_blinks := consec_blinks st |} in
    '(st, out) ← process_faces pr (multi_face_landmarks i) (current_time i) st;
    let key := Z.land (waitKey i) 0xff in
    if key =? ord_q then Ok (st, out ++ [QuitRequested], true)
    else
      let '(st, out) :=
        if key =? ord_r then
          ({| blink_sequence := [];
              frame_counter := frame_counter st;
              ear_history := ear_history st;
              is_blinking := false;
              blink_start_time := blink_start_time st;
              last_blink_time := last_blink_time st;
              consec_blinks := 0 |},
           out ++ [Resetting])
        else (st, out) in
      if MAX_BLINKS <=? Z.of_nat (length (blink_sequence st))
      then Ok (st, out ++ [CaptureComplete], true)
      else Ok (st, out, false).

(** The loop over the passes the outside supplies; [None] when they run
    out while the loop is still going. *)
Fixpoint capture_loop (pr : promotion) (inputs : list frame_input) (st : State)
  : option (result (State * list output)) :=
  match inputs with
  | [] => None
  | i :: inputs' =>
      match loop_body pr i st with
      | Raise e => Some (Raise e)
      | Ok (st, out, true) => Some (Ok (st, out))
      | Ok (st, out, false) =>
          match capture_loop pr inputs' st with
          | Some (Ok (st', out')) => Some (Ok (st', out ++ out'))
          | r => r
          end
      end
  end.

Definition pin_str_of (seq : list blink_type) : string :=
  String.concat "" (map BLINK_TO_DIGIT seq).

(** [main]. [json_dump_error] is as for [save_users], [username] is
    [input(...).strip()], [camera_opened] is [cap.isOpened()], [now] is the
    clock when the PIN is stored. *)
Definition main (json_dump_error : json -> option exn) (pr : promotion)
    (username : string) (camera_opened : bool)
    (inputs : list frame_input) (now : float) (fs : fsys)
  : option (result unit * list output * fsys) :=
  if String.eqb username "" then Some (Ok tt, [Banner; ErrorEmptyUsername], fs)
  else if negb camera_opened then Some (Ok tt, [Banner; ErrorNoCamera], fs)
  else
    match capture_loop pr inputs initial_state with
    | None => None
    | Some (Raise e) => Some (Raise e, [Banner; CameraInitialized], fs)
    | Some (Ok (st, out)) =>
        let out := [Banner; CameraInitialized] ++ out in
        if MAX_BLINKS <=? Z.of_nat (length (blink_sequence st)) then
          let pin_str := pin_str_of (blink_sequence st) in
          let out := out ++ [ShowSequence (blink_sequence st) pin_str] in
          match set_user_pin json_dump_error username pin_str now fs with
          | (Ok _, fs') => Some (Ok tt, out ++ [Success username], fs')
          | (Raise e, fs') => Some (Raise e, out, fs')
          end
        else Some (Ok tt, out ++ [Incomplete], fs)
    end.

End register_pin.

(** ** blink_utils.py: landmark coordinates and the readers of the store *)

Import blink_utils register_pin.

(** [int(x)] for a float: truncation toward zero; NaN and the infinities
    raise. *)
Definition int_of_float (x : float) : result Z :=
  match Prim2SF x with
  | S754_nan => Raise ValueError
  | S754_infinity _ => Raise OverflowError
  | S754_zero _ => Ok 0
  | S754_finite s m e => Ok (cond_Zopp s (Z.shiftl (Zpos m) e))
  end.

(** The float of an int, as [float * int] converts its right operand:
    rounded to nearest, [OverflowError] when too large. *)
Definition float_of_int (n : Z) : result float :=
  match binary_normalize FloatOps.prec FloatOps.emax n 0 false with
  | S754_infinity _ => Raise OverflowError
  | x => Ok (SF2Prim x)
  end.

Definition LEFT_EYE_LANDMARKS : list nat := [33; 160; 158; 133; 153; 144]%nat.
Definition RIGHT_EYE_LANDMARKS : list nat := [362; 385; 387; 263; 373; 380]%nat.

(** A normalized landmark, [(lm.x, lm.y)]. *)
Abbreviation landmark := (float * float)%type.

(** [get_landmark_coords]; [landmarks] is the list [landmarks.landmark]. *)
Fixpoint get_landmark_coords (landmarks : list landmark) (indices : list nat)
    (width height : Z) : result (list (Z * Z)) :=
  match indices with
  | [] => Ok []
  | idx :: indices' =>
      match landmarks !! idx with
      | None => Raise IndexError
      | Some lm =>
          w ← float_of_int width;
          x ← int_of_float (lm.1 * w)%float;
          h ← float_of_int height;
          y ← int_of_float (lm.2 * h)%float;
          coords ← get_landmark_coords landmarks indices' width height;
          Ok ((x, y) :: coords)
      end
  end.

(** An integer pixel coordinate as an element of the [float32] array: the
    float of the integer, which is the integer itself up to 2^53. *)
Definition pixel_point (c : Z * Z) : point :=
  (SF2Prim (binary_normalize FloatOps.prec FloatOps.emax c.1 0 false),
   SF2Prim (binary_normalize FloatOps.prec FloatOps.emax c.2 0 false)).

(** Lines 85-86 of register_pin.py: the two eyes of one face. *)
Definition face_of_landmarks (landmarks : list landmark) (w h : Z) : result face :=
  left ← get_landmark_coords landmarks LEFT_EYE_LANDMARKS w h;
  right ← get_landmark_coords landmarks RIGHT_EYE_LANDMARKS w h;
  Ok (mkFace (map pixel_point left) (map pixel_point right)).

Section Readers.
(** [int(s)] for a string, whatever Python's parser makes of it. *)
Variable int_of_str : string -> result Z.

(** [int(v)] *)
Definition py_int (v : json) : result Z :=
  match v with
  | JInt n => Ok n
  | JBool b => Ok (if b then 1 else 0)
  | JFloat f => int_of_float f
  | JStr s => int_of_str s
  | JNone | JList _ | JDict _ => Raise TypeError
  end.

Definition get_user_pin_length (username : string) (default_length : Z) (f : file)
  : result Z :=
  db ← load_users f;
  user ← get_user db username;
  if negb (truthy user) then Ok default_length
  else
    match user with
    | JDict r => py_int (default (JInt default_length) (r !! "pin_length"))
    | _ => Raise AttributeError
    end.
End Readers.

(** ** Runs of the pipeline stages *)

Import blink_utils register_pin.

(** A smoothed sample with the clock of its frame: [(smooth_ear, current_time)]. *)
Abbreviation sample := (float * float)%type.

Definition below_threshold (smooth_ear : float) : bool :=
  PrimFloat.ltb smooth_ear EAR_THRESHOLD.

(** [(current_time - last_blink_time) > MIN_BLINK_INTERVAL] *)
Definition interval_elapsed (current_time last : float) : bool :=
  PrimFloat.ltb MIN_BLINK_INTERVAL (PrimFloat.sub current_time last).

(** A blink event is what lines 126-127 complete: the eyes reopen while
    [is_blinking] holds, and the duration is taken from [blink_start_time]. *)
Record BlinkEvent : Type := mkEvent {
  start_time : float;
  end_time : float;
  duration : float
}.

Definition blink_event (smp : sample) (st : State) : option BlinkEvent :=
  if negb (below_threshold smp.1) && is_blinking st
  then Some (mkEvent (blink_start_time st) smp.2
               (PrimFloat.sub smp.2 (blink_start_time st)))
  else None.

(** The detector fed with a list of samples: the state it ends in ... *)
Fixpoint run_detector (samples : list sample) (st : State) : State :=
  match samples with
  | [] => st
  | smp :: rest => run_detector rest (detect smp.1 smp.2 st).1
  end.

(** ... and the events completed on the way. *)
Fixpoint blink_events (samples : list sample) (st : State) : list BlinkEvent :=
  match samples with
  | [] => []
  | smp :: rest =>
      option_list (blink_event smp st) ++ blink_events rest (detect smp.1 smp.2 st).1
  end.

(** Whether a below-threshold sample at [t] confirms a closure (lines 110-111). *)
Definition confirms (t : float) (st : State) : bool :=
  negb (is_blinking st) && (CONSEC_FRAMES <=? consec_blinks st + 1)
  && interval_elapsed t (last_blink_time st).

(** The smoother fed with raw samples: the history it ends with ... *)
Fixpoint history_after (raw : list float) (h : list float) : list float :=
  match raw with
  | [] => h
  | a :: raw' => history_after raw' (smooth h a).1
  end.


(** The users mapping of a store object. *)
Definition users_of (db : json) : option (gmap string json) :=
  match db with
  | JDict d =>
      match d !! "users" with
      | Some (JDict users) => Some users
      | _ => None
      end
  | _ => None
  end.

(** A persisted file that holds a JSON object with a mapping under "users". *)
Definition well_formed_store (f : file) : bool :=
  match f with
  | Holds db => bool_decide (is_Some (users_of db))
  | _ => false
  end.

(** The records a reader of the persisted file sees. *)
Definition stored_users (f : file) : gmap string json :=
  match load_users f with
  | Ok db => default ∅ (users_of db)
  | Raise _ => ∅
  end.

(** * Properties *)

(** ** The detector, one sample at a time *)

Section DetectStep.
Variables (s t : float) (st : State).

Lemma detect_below_fields :
  below_threshold s = true ->
  let st' := (detect s t st).1 in
  blink_sequence st' = blink_sequence st
  /\ last_blink_time st' = last_blink_time st
  /\ consec_blinks st' = consec_blinks st + 1
  /\ is_blinking st' = is_blinking st || confirms t st
  /\ blink_start_time st' = (if confirms t st then t else blink_start_time st)
  /\ ear_history st' = ear_history st
  /\ frame_counter st' = frame_counter st.
Proof.
  unfold below_threshold, confirms, interval_elapsed, detect. intros ->.
  destruct (is_blinking st); cbn [negb andb orb].
  - repeat split; reflexivity.
  - destruct (CONSEC_FRAMES <=? consec_blinks st + 1); cbn [andb].
    + destruct (PrimFloat.ltb _ _); repeat split; reflexivity.
    + repeat split; reflexivity.
Qed.

Lemma detect_below_output :
  below_threshold s = true ->
  (detect s t st).2 = if confirms t st then [BlinkStart s] else [].
Proof.
  unfold below_threshold, confirms, interval_elapsed, detect. intros ->.
  destruct (is_blinking st); cbn [negb andb]; [reflexivity|].
  destruct (CONSEC_FRAMES <=? consec_blinks st + 1); cbn [andb]; [|reflexivity].
  destruct (PrimFloat.ltb _ _); reflexivity.
Qed.

(** Whether the reopening sample appends a symbol (lines 126 and 129). *)
Definition appends : bool :=
  is_blinking st && (Z.of_nat (length (blink_sequence st)) <? MAX_BLINKS).

Lemma detect_open_fields :
  below_threshold s = false ->
  let st' := (detect s t st).1 in
  let d := PrimFloat.sub t (blink_start_time st) in
  blink_sequence st'
    = (if appends then blink_sequence st ++ [(classify d).1] else blink_sequence st)
  /\ last_blink_time st' = (if appends then t else last_blink_time st)
  /\ consec_blinks st' = 0
  /\ is_blinking st' = false
  /\ blink_start_time st' = blink_start_time st
  /\ ear_history st' = ear_history st
  /\ frame_counter st' = frame_counter st.
Proof.
  unfold below_threshold, appends, detect. intros ->.
  destruct (is_blinking st); cbn [andb].
  - destruct (Z.of_nat (length (blink_sequence st)) <? MAX_BLINKS).
    + destruct (classify _) as [b digit]. repeat split; reflexivity.
    + repeat split; reflexivity.
  - repeat split; reflexivity.
Qed.

Lemma detect_open_output :
  below_threshold s = false ->
  let d := PrimFloat.sub t (blink_start_time st) in
  (detect s t st).2
    = if appends then [Detected (classify d).1 d (classify d).2] else [].
Proof.
  unfold below_threshold, appends, detect. intros ->.
  destruct (is_blinking st); cbn [andb]; [|reflexivity].
  destruct (Z.of_nat (length (blink_sequence st)) <? MAX_BLINKS); [|reflexivity].
  destruct (classify _) as [b digit]. reflexivity.
Qed.
End DetectStep.

(** ** Runs of the detector *)

Lemma run_detector_app (l1 l2 : list sample) (st : State) :
  run_detector (l1 ++ l2) st = run_detector l2 (run_detector l1 st).
Proof. revert st; induction l1 as [|smp l1 IH]; intros st; simpl; auto. Qed.

Lemma blink_events_app (l1 l2 : list sample) (st : State) :
  blink_events (l1 ++ l2) st
  = blink_events l1 st ++ blink_events l2 (run_detector l1 st).
Proof.
  revert st; induction l1 as [|smp l1 IH]; intros st; simpl; [reflexivity|].
  rewrite IH, app_assoc. reflexivity.
Qed.

Lemma blink_event_below (smp : sample) (st : State) :
  below_threshold smp.1 = true -> blink_event smp st = None.
Proof. unfold blink_event. intros ->. reflexivity. Qed.

Lemma blink_event_open (smp : sample) (st : State) :
  below_threshold smp.1 = false ->
  blink_event smp st
  = if is_blinking st
    then Some (mkEvent (blink_start_time st) smp.2
                 (PrimFloat.sub smp.2 (blink_start_time st)))
    else None.
Proof. unfold blink_event. intros ->. reflexivity. Qed.

(** While a closure is confirmed, further below-threshold samples change
    nothing but the counter. *)
Lemma closure_while_blinking (closure : list sample) (st : State) :
  is_blinking st = true ->
  Forall (fun smp => below_threshold smp.1 = true) closure ->
  let st' := run_detector closure st in
  blink_events closure st = []
  /\ is_blinking st' = true
  /\ blink_start_time st' = blink_start_time st
  /\ blink_sequence st' = blink_sequence st
  /\ last_blink_time st' = last_blink_time st.
Proof.
  revert st; induction closure as [|smp rest IH]; intros st Hb Hall; simpl.
  - auto.
  - inversion_clear Hall as [|? ? Hs Hrest].
    destruct (detect_below_fields smp.1 smp.2 st Hs) as (Hseq & Hlast & _ & Hbl & Hstart & _).
    assert (Hc : confirms smp.2 st = false) by (unfold confirms; rewrite Hb; reflexivity).
    rewrite Hb, Hc in Hbl. rewrite Hc in Hstart.
    destruct (IH _ Hbl Hrest) as (He & Hb' & Hstart' & Hseq' & Hlast').
    rewrite (blink_event_below _ _ Hs), He, Hb', Hstart', Hseq', Hlast'.
    repeat split; congruence.
Qed.

(** A closure that starts [k] samples short of the frame that reaches
    [CONSEC_FRAMES], with the refractory interval elapsed: the sample of
    index [k] confirms it and gives the start time. *)
Lemma closure_confirmed_at (closure : list sample) (k : nat) (st : State) :
  is_blinking st = false ->
  consec_blinks st + Z.of_nat (S k) = CONSEC_FRAMES ->
  Forall (fun smp => below_threshold smp.1 = true
                     /\ interval_elapsed smp.2 (last_blink_time st) = true) closure ->
  let st' := run_detector closure st in
  blink_events closure st = []
  /\ blink_sequence st' = blink_sequence st
  /\ last_blink_time st' = last_blink_time st
  /\ match closure !! k with
     | Some smp => is_blinking st' = true /\ blink_start_time st' = smp.2
     | None => is_blinking st' = false
     end.
Proof.
  revert k st; induction closure as [|smp rest IH]; intros k st Hb Hk Hall; simpl.
  - auto.
  - inversion_clear Hall as [|? ? [Hs Ht] Hrest].
    destruct (detect_below_fields smp.1 smp.2 st Hs) as (Hseq & Hlast & Hcnt & Hbl & Hstart & _).
    rewrite (blink_event_below _ _ Hs). simpl.
    destruct k as [|k].
    + assert (Hc : confirms smp.2 st = true).
      { unfold confirms. rewrite Hb, Ht.
        replace (consec_blinks st + 1) with CONSEC_FRAMES by lia. reflexivity. }
      rewrite Hc in Hbl, Hstart. rewrite Hb in Hbl. simpl in Hbl.
      assert (Hrest' : Forall (fun smp0 : sample => below_threshold smp0.1 = true) rest).
      { eapply Forall_impl; [exact Hrest|]. intros ? [? _]; assumption. }
      destruct (closure_while_blinking rest _ Hbl Hrest') as (He & Hb' & Hstart' & Hseq' & Hlast').
      rewrite He, Hb', Hstart', Hseq', Hlast'. repeat split; congruence.
    + assert (Hc : confirms smp.2 st = false).
      { unfold confirms. rewrite Hb.
        replace (CONSEC_FRAMES <=? consec_blinks st + 1) with false; [reflexivity|].
        symmetry. apply Z.leb_gt. lia. }
      rewrite Hc in Hbl. rewrite Hb in Hbl. simpl in Hbl.
      rewrite <- Hlast in Hrest.
      destruct (IH k _ Hbl ltac:(lia) Hrest) as (He & Hseq' & Hlast' & Hk').
      rewrite He, Hseq', Hlast'. repeat split; try congruence. exact Hk'.
Qed.

(** C1. From the open state with the counter at 0 and the refractory interval
    elapsed, [N] samples below the threshold followed by one sample at or
    above it complete exactly one blink event when [N >= CONSEC_FRAMES] and
    none when [N < CONSEC_FRAMES]. The event starts at the sample that brings
    the counter to [CONSEC_FRAMES] and ends at the reopening sample; as long
    as the sequence has room, it appends exactly one symbol. *)
Theorem blink_iff_enough_frames
    (st : State) (closure : list sample) (s_open t_open : float) :
  is_blinking st = false ->
  consec_blinks st = 0 ->
  Forall (fun smp => below_threshold smp.1 = true
                     /\ interval_elapsed smp.2 (last_blink_time st) = true) closure ->
  below_threshold s_open = false ->
  let samples := closure ++ [(s_open, t_open)] in
  let expected :=
    match closure !! 2%nat with
    | Some smp => [mkEvent smp.2 t_open (PrimFloat.sub t_open smp.2)]
    | None => []
    end in
  blink_events samples st = expected
  /\ length (blink_events samples st)
     = (if CONSEC_FRAMES <=? Z.of_nat (length closure) then 1%nat else 0%nat)
  /\ (Z.of_nat (length (blink_sequence st)) < MAX_BLINKS ->
      blink_sequence (run_detector samples st)
      = blink_sequence st ++ map (fun e => (classify (duration e)).1) expected).
Proof.
  intros Hb Hc Hall Hopen samples expected.
  destruct (closure_confirmed_at closure 2 st Hb ltac:(rewrite Hc; reflexivity) Hall)
    as (He & Hseq & Hlast & Hk).
  assert (Hev : blink_events samples st = expected).
  { unfold samples, expected. rewrite blink_events_app, He. simpl.
    rewrite (blink_event_open (s_open, t_open) _ Hopen). simpl.
    destruct (closure !! 2%nat) as [smp|] eqn:Hlk.
    - destruct Hk as [-> ->]. reflexivity.
    - rewrite Hk. reflexivity. }
  split; [exact Hev|]. split.
  - rewrite Hev. unfold expected.
    destruct (closure !! 2%nat) as [smp|] eqn:Hlk.
    + apply lookup_lt_Some in Hlk.
      replace (CONSEC_FRAMES <=? Z.of_nat (length closure)) with true; [reflexivity|].
      symmetry. apply Z.leb_le. unfold CONSEC_FRAMES. lia.
    + apply lookup_ge_None in Hlk.
      replace (CONSEC_FRAMES <=? Z.of_nat (length closure)) with false; [reflexivity|].
      symmetry. apply Z.leb_gt. unfold CONSEC_FRAMES. lia.
  - intros Hroom. unfold samples. rewrite run_detector_app. simpl.
    destruct (detect_open_fields s_open t_open (run_detector closure st) Hopen)
      as (-> & _). unfold appends. rewrite Hseq.
    replace (Z.of_nat (length (blink_sequence st)) <? MAX_BLINKS) with true
      by (symmetry; apply Z.ltb_lt; exact Hroom).
    unfold expected. destruct (closure !! 2%nat) as [smp|].
    + destruct Hk as [-> ->]. reflexivity.
    + rewrite Hk. simpl. rewrite app_nil_r. reflexivity.
Qed.

(** The samples of a short blink, as the capture loop would time them. *)
Definition three_closed_frames : list sample :=
  [(0.125, 10); (0.125, 10.0625); (0.125, 10.125)]%float.

Lemma blink_iff_enough_frames_witness :
  blink_events (three_closed_frames ++ [(0.5, 10.25)%float]) initial_state
  = [mkEvent 10.125 10.25 0.125]
  /\ blink_events (take 2 three_closed_frames ++ [(0.5, 10.25)%float]) initial_state = [].
Proof.
  split.
  - refine (proj1 (blink_iff_enough_frames initial_state three_closed_frames
                     0.5 10.25 eq_refl eq_refl _ eq_refl)).
    repeat constructor.
  - refine (proj1 (blink_iff_enough_frames initial_state (take 2 three_closed_frames)
                     0.5 10.25 eq_refl eq_refl _ eq_refl)).
    repeat constructor.
Defined.

(** ** The refractory interval *)

(** C2 as the specification words it, for the closure that follows a
    completed blink: the sample that brings the counter to [CONSEC_FRAMES]
    (index 2, counting from 0) comes no later than [MIN_BLINK_INTERVAL] after
    the end of that blink; then the detector is never in the confirmed state
    during the closure and the reopening sample completes no event. *)
Definition second_closure_suppressed
    (st : State) (closure : list sample) (reopen : sample) : Prop :=
  is_blinking st = false ->
  consec_blinks st = 0 ->
  Forall (fun smp => below_threshold smp.1 = true) closure ->
  (exists smp, closure !! 2%nat = Some smp
     /\ PrimFloat.leb (PrimFloat.sub smp.2 (last_blink_time st)) MIN_BLINK_INTERVAL = true) ->
  below_threshold reopen.1 = false ->
  (forall n, is_blinking (run_detector (take n closure) st) = false)
  /\ blink_events (closure ++ [reopen]) st = [].

(** A first blink that ends at 1.5 s ... *)
Definition first_blink : list sample :=
  [(0.125, 1); (0.125, 1.0625); (0.125, 1.125); (0.5, 1.5)]%float.

Definition after_first_blink : State := run_detector first_blink initial_state.

(** ... and a second closure whose third sample comes 0.1875 s later, but
    which lasts until 0.5625 s after the first blink. *)
Definition long_second_closure : list sample :=
  [(0.125, 1.5625); (0.125, 1.625); (0.125, 1.6875); (0.125, 1.75);
   (0.125, 1.875); (0.125, 2); (0.125, 2.0625)]%float.

Lemma closure_never_confirmed (closure : list sample) (st : State) :
  is_blinking st = false ->
  Forall (fun smp => below_threshold smp.1 = true) closure ->
  (forall (i : nat) smp, closure !! i = Some smp ->
     CONSEC_FRAMES <= consec_blinks st + Z.of_nat i + 1 ->
     interval_elapsed smp.2 (last_blink_time st) = false) ->
  let st' := run_detector closure st in
  blink_events closure st = []
  /\ is_blinking st' = false
  /\ blink_sequence st' = blink_sequence st
  /\ last_blink_time st' = last_blink_time st
  /\ blink_start_time st' = blink_start_time st
  /\ consec_blinks st' = consec_blinks st + Z.of_nat (length closure).
Proof.
  revert st; induction closure as [|smp rest IH]; intros st Hb Hall Hlate; simpl.
  - repeat split; try reflexivity; [exact Hb | lia].
  - inversion_clear Hall as [|? ? Hs Hrest].
    destruct (detect_below_fields smp.1 smp.2 st Hs)
      as (Hseq & Hlast & Hcnt & Hbl & Hstart & _).
    assert (Hc : confirms smp.2 st = false).
    { unfold confirms. rewrite Hb. cbn [negb andb].
      destruct (Z.leb_spec CONSEC_FRAMES (consec_blinks st + 1)) as [Hge|Hlt];
        [|reflexivity].
      cbn [andb]. apply (Hlate 0%nat smp eq_refl). lia. }
    rewrite Hc in Hbl, Hstart. rewrite Hb in Hbl. simpl in Hbl.
    destruct (IH _ Hbl Hrest) as (He & Hb' & Hseq' & Hlast' & Hstart' & Hcnt').
    { intros i smp' Hi Hge. rewrite Hlast. apply (Hlate (S i) smp' Hi). lia. }
    rewrite (blink_event_below _ _ Hs), He. simpl.
    repeat split; try congruence. lia.
Qed.

(** C2, counterexample: after a first blink, a closure whose confirmation
    sample falls inside the refractory interval but which lasts beyond it is
    confirmed late and completes a second event. *)
Lemma long_second_closure_registers :
  last_blink_time after_first_blink = 1.5%float
  /\ blink_events (long_second_closure ++ [(0.5, 2.25)%float]) after_first_blink
     = [mkEvent 2.0625 2.25 0.1875]
  /\ blink_sequence (run_detector (first_blink ++ long_second_closure ++ [(0.5, 2.25)%float])
                       initial_state) = [quick; quick]
  /\ ~ second_closure_suppressed after_first_blink long_second_closure (0.5, 2.25)%float.
Proof.
  repeat split; try reflexivity.
  intros H.
  destruct H as [_ Hev]; try reflexivity.
  - repeat constructor.
  - exists (0.125, 1.6875)%float. split; reflexivity.
  - discriminate Hev.
Qed.

(** A closure that lasts beyond the refractory interval is confirmed at its
    first sample, from index 2 on, that comes later than
    [MIN_BLINK_INTERVAL] after the last blink. *)
Lemma closure_confirmed_late (closure : list sample) (st : State) (k : nat) (smp : sample) :
  is_blinking st = false ->
  consec_blinks st = 0 ->
  Forall (fun smp' => below_threshold smp'.1 = true) closure ->
  closure !! k = Some smp ->
  (2 <= k)%nat ->
  interval_elapsed smp.2 (last_blink_time st) = true ->
  Forall (fun smp' => interval_elapsed smp'.2 (last_blink_time st) = false)
         (drop 2 (take k closure)) ->
  let st' := run_detector closure st in
  blink_events closure st = []
  /\ is_blinking st' = true
  /\ blink_start_time st' = smp.2
  /\ blink_sequence st' = blink_sequence st
  /\ last_blink_time st' = last_blink_time st.
Proof.
  intros Hb Hc Hall Hk Hk2 Hel Hlate.
  rewrite <- (take_drop_middle closure k smp Hk) in Hall |- *.
  apply Forall_app in Hall as [Hpre Hrest].
  inversion_clear Hrest as [|? ? Hs Hpost].
  destruct (closure_never_confirmed (take k closure) st Hb Hpre)
    as (He & Hb' & Hseq & Hlast & _ & Hcnt).
  { intros i smp' Hi Hge. rewrite Hc in Hge. unfold CONSEC_FRAMES in Hge.
    rewrite Forall_lookup in Hlate. apply (Hlate (i - 2)%nat).
    rewrite lookup_drop. replace (2 + (i - 2))%nat with i by lia. exact Hi. }
  assert (Hlen : length (take k closure) = k).
  { apply length_take_le. apply lookup_lt_Some in Hk. lia. }
  set (stk := run_detector (take k closure) st) in *.
  destruct (detect_below_fields smp.1 smp.2 stk Hs)
    as (Hseq1 & Hlast1 & _ & Hbl1 & Hstart1 & _).
  assert (Hconf : confirms smp.2 stk = true).
  { unfold confirms. rewrite Hb', Hlast, Hel, Hcnt, Hc, Hlen. cbn [negb andb].
    rewrite andb_true_r. apply Z.leb_le. unfold CONSEC_FRAMES. lia. }
  rewrite Hconf in Hbl1, Hstart1. rewrite orb_true_r in Hbl1.
  destruct (closure_while_blinking _ _ Hbl1 Hpost) as (He2 & Hb2 & Hstart2 & Hseq2 & Hlast2).
  rewrite run_detector_app, blink_events_app, He.
  cbn [run_detector blink_events app]. fold stk.
  rewrite (blink_event_below smp stk Hs), He2, Hb2, Hstart2, Hseq2, Hlast2.
  repeat split; congruence.
Qed.

(** C2, amended. After a blink that ends (and is counted) at [t_end], a
    second closure of which every sample from the confirmation sample on
    comes no more than [MIN_BLINK_INTERVAL] after [t_end] is never
    confirmed: the detector stays open through all of it, and its reopening
    completes no event and appends no symbol. A second closure that lasts
    longer is confirmed at its first sample, from the confirmation sample on,
    that comes more than [MIN_BLINK_INTERVAL] after [t_end], not before, and
    its reopening completes a second event that starts at that sample. *)
Theorem second_closure_waits_for_interval
    (st0 : State) (s_end t_end : float) (closure : list sample) (reopen : sample) :
  is_blinking st0 = true ->
  Z.of_nat (length (blink_sequence st0)) < MAX_BLINKS ->
  below_threshold s_end = false ->
  Forall (fun smp => below_threshold smp.1 = true) closure ->
  below_threshold reopen.1 = false ->
  let st := (detect s_end t_end st0).1 in
  last_blink_time st = t_end
  /\ (Forall (fun smp => interval_elapsed smp.2 t_end = false) (drop 2 closure) ->
      (forall n, is_blinking (run_detector (take n closure) st) = false)
      /\ blink_events (closure ++ [reopen]) st = []
      /\ blink_sequence (run_detector (closure ++ [reopen]) st) = blink_sequence st
      /\ last_blink_time (run_detector (closure ++ [reopen]) st) = t_end)
  /\ (forall k smp,
        closure !! k = Some smp ->
        (2 <= k)%nat ->
        interval_elapsed smp.2 t_end = true ->
        Forall (fun smp' => interval_elapsed smp'.2 t_end = false)
               (drop 2 (take k closure)) ->
        (forall n, (n <= k)%nat -> is_blinking (run_detector (take n closure) st) = false)
        /\ (forall n, (k < n)%nat -> is_blinking (run_detector (take n closure) st) = true)
        /\ blink_events (closure ++ [reopen]) st
           = [mkEvent smp.2 reopen.2 (PrimFloat.sub reopen.2 smp.2)]).
Proof.
  intros Hb0 Hroom Hend Hall Hopen st.
  assert (Happ : appends st0 = true).
  { unfold appends. rewrite Hb0. apply Z.ltb_lt. exact Hroom. }
  destruct (detect_open_fields s_end t_end st0 Hend) as (_ & Hlast & Hc & Hb & _).
  rewrite Happ in Hlast. fold st in Hlast, Hc, Hb.
  split; [exact Hlast|]. split.
  - intros Hlate. rewrite <- Hlast in Hlate.
    assert (Hidx : forall (i : nat) smp, closure !! i = Some smp ->
              CONSEC_FRAMES <= consec_blinks st + Z.of_nat i + 1 ->
              interval_elapsed smp.2 (last_blink_time st) = false).
    { intros i smp Hi Hge. rewrite Hc in Hge. unfold CONSEC_FRAMES in Hge.
      rewrite Forall_lookup in Hlate. apply (Hlate (i - 2)%nat).
      rewrite lookup_drop. replace (2 + (i - 2))%nat with i by lia. exact Hi. }
    split.
    + intros n. apply (closure_never_confirmed (take n closure) st Hb).
      * apply Forall_take. exact Hall.
      * intros i smp Hi. apply Hidx. apply lookup_take_Some in Hi. tauto.
    + destruct (closure_never_confirmed closure st Hb Hall Hidx)
        as (He & Hb' & Hseq & Hlast' & _).
      rewrite blink_events_app, run_detector_app, He. simpl.
      destruct (detect_open_fields reopen.1 reopen.2 (run_detector closure st) Hopen)
        as (-> & -> & _).
      rewrite (blink_event_open reopen _ Hopen). unfold appends. rewrite Hb'. simpl.
      rewrite Hseq, Hlast', Hlast. auto.
  - intros k smp Hk Hk2 Hel Hlate. rewrite <- Hlast in Hel, Hlate.
    assert (Hklt : (k < length closure)%nat) by (apply lookup_lt_Some in Hk; exact Hk).
    split; [|split].
    + intros n Hn. apply (closure_never_confirmed (take n closure) st Hb).
      * apply Forall_take. exact Hall.
      * intros i smp' Hi Hge. rewrite Hc in Hge. unfold CONSEC_FRAMES in Hge.
        apply lookup_take_Some in Hi as [Hi Hin].
        rewrite Forall_lookup in Hlate. apply (Hlate (i - 2)%nat).
        rewrite lookup_drop. replace (2 + (i - 2))%nat with i by lia.
        apply lookup_take_Some. split; [exact Hi|lia].
    + intros n Hn.
      apply (closure_confirmed_late (take n closure) st k smp Hb Hc).
      * apply Forall_take. exact Hall.
      * apply lookup_take_Some. split; [exact Hk|exact Hn].
      * exact Hk2.
      * exact Hel.
      * rewrite take_take. replace (Nat.min k n) with k by lia. exact Hlate.
    + destruct (closure_confirmed_late closure st k smp Hb Hc Hall Hk Hk2 Hel Hlate)
        as (He & Hb' & Hstart & _).
      rewrite blink_events_app, He. simpl.
      rewrite (blink_event_open reopen _ Hopen), Hb', Hstart. reflexivity.
Qed.

(** The first blink before the eyes reopen. *)
Definition during_first_blink : State := run_detector (take 3 first_blink) initial_state.

Lemma second_closure_waits_for_interval_witness :
  blink_events (take 4 long_second_closure ++ [(0.5, 1.8125)%float]) after_first_blink = []
  /\ blink_events (long_second_closure ++ [(0.5, 2.25)%float]) after_first_blink
     = [mkEvent 2.0625 2.25 0.1875].
Proof.
  split.
  - destruct (second_closure_waits_for_interval
                during_first_blink 0.5 1.5 (take 4 long_second_closure) (0.5, 1.8125)%float
                eq_refl eq_refl eq_refl ltac:(repeat constructor) eq_refl)
      as (_ & Hshort & _).
    apply Hshort. repeat constructor.
  - destruct (second_closure_waits_for_interval
                during_first_blink 0.5 1.5 long_second_closure (0.5, 2.25)%float
                eq_refl eq_refl eq_refl ltac:(repeat constructor) eq_refl)
      as (_ & _ & Hlong).
    apply (Hlong 6%nat (0.125, 2.0625)%float eq_refl ltac:(lia) eq_refl).
    repeat constructor.
Defined.

(** ** A blink that ends when the sequence is full *)

(** C9. When a blink is in progress and the sequence already holds
    [MAX_BLINKS] symbols, the reopening sample drops the event: nothing is
    appended and nothing printed, [is_blinking] becomes false and the counter
    0, and [last_blink_time] (like every other variable) keeps its value. *)
Theorem full_sequence_drops_blink (s t : float) (st : State) :
  is_blinking st = true ->
  MAX_BLINKS <= Z.of_nat (length (blink_sequence st)) ->
  below_threshold s = false ->
  detect s t st
  = ({| blink_sequence := blink_sequence st;
        frame_counter := frame_counter st;
        ear_history := ear_history st;
        is_blinking := false;
        blink_start_time := blink_start_time st;
        last_blink_time := last_blink_time st;
        consec_blinks := 0 |}, [])
  /\ blink_event (s, t) st
     = Some (mkEvent (blink_start_time st) t (PrimFloat.sub t (blink_start_time st))).
Proof.
  intros Hb Hfull Hopen. split.
  - unfold below_threshold in Hopen. unfold detect. rewrite Hopen, Hb.
    replace (Z.of_nat (length (blink_sequence st)) <? MAX_BLINKS) with false
      by (symmetry; apply Z.ltb_ge; exact Hfull).
    reflexivity.
  - rewrite (blink_event_open (s, t) st Hopen), Hb. reflexivity.
Qed.

Definition blinking_with_full_sequence : State :=
  {| blink_sequence := [quick; long; quick; long];
     frame_counter := 90;
     ear_history := [0.125; 0.125; 0.125; 0.125; 0.5]%float;
     is_blinking := true;
     blink_start_time := 12%float;
     last_blink_time := 11%float;
     consec_blinks := 6 |}.

Lemma full_sequence_drops_blink_witness :
  last_blink_time (detect 0.5 12.5 blinking_with_full_sequence).1 = 11%float
  /\ blink_sequence (detect 0.5 12.5 blinking_with_full_sequence).1
     = [quick; long; quick; long].
Proof.
  pose proof (full_sequence_drops_blink 0.5 12.5 blinking_with_full_sequence
                eq_refl ltac:(vm_compute; discriminate) eq_refl) as [H _].
  rewrite H. split; reflexivity.
Defined.

(** ** The classifier *)

(** C4. A completed blink of duration [d] is classified quick, digit "0",
    when [d < BLINK_DURATION_THRESHOLD] and long, digit "1", otherwise; the
    digit is the one [BLINK_TO_DIGIT] gives, and the symbol appended for an
    event is the class of its duration. 0.39 s is quick, 0.4 s and 0.41 s
    are long. *)
Theorem classifier_threshold :
  (forall d,
     classify d = if PrimFloat.ltb d BLINK_DURATION_THRESHOLD
                  then (quick, "0") else (long, "1"))
  /\ (forall d, (classify d).2 = BLINK_TO_DIGIT (classify d).1)
  /\ (forall s t st,
        below_threshold s = false ->
        appends st = true ->
        let d := PrimFloat.sub t (blink_start_time st) in
        blink_sequence (detect s t st).1 = blink_sequence st ++ [(classify d).1]
        /\ (detect s t st).2 = [Detected (classify d).1 d (classify d).2])
  /\ classify 0x1.8f5c28f5c28f6p-2 (* 0.39 *) = (quick, "0")
  /\ classify 0x1.999999999999ap-2 (* 0.4 *) = (long, "1")
  /\ classify 0x1.a3d70a3d70a3dp-2 (* 0.41 *) = (long, "1").
Proof.
  split; [reflexivity|]. split.
  { intros d. unfold classify. destruct (PrimFloat.ltb _ _); reflexivity. }
  split; [|repeat split; reflexivity].
  intros s t st Hopen Happ d.
  destruct (detect_open_fields s t st Hopen) as (Hseq & _).
  rewrite Hseq, (detect_open_output s t st Hopen), Happ. split; reflexivity.
Qed.

Definition blinking_since_12 : State :=
  {| blink_sequence := [quick];
     frame_counter := 90;
     ear_history := [0.125; 0.125; 0.125; 0.125; 0.5]%float;
     is_blinking := true;
     blink_start_time := 12%float;
     last_blink_time := 11%float;
     consec_blinks := 6 |}.

Lemma classifier_threshold_witness :
  blink_sequence (detect 0.5 12.5 blinking_since_12).1 = [quick; long].
Proof.
  destruct classifier_threshold as (_ & _ & H & _).
  destruct (H 0.5%float 12.5%float blinking_since_12 eq_refl eq_refl) as [Hseq _].
  rewrite Hseq. reflexivity.
Defined.

(** ** The accumulated sequence *)

Definition seq_len (st : State) : Z := Z.of_nat (length (blink_sequence st)).

Lemma detect_seq_len (s t : float) (st : State) :
  seq_len (detect s t st).1
  = seq_len st + (if negb (below_threshold s) && appends st then 1 else 0).
Proof.
  unfold seq_len. destruct (below_threshold s) eqn:Hs.
  - destruct (detect_below_fields s t st Hs) as (-> & _). simpl. lia.
  - destruct (detect_open_fields s t st Hs) as (-> & _). simpl.
    destruct (appends st); [rewrite length_app; simpl|]; lia.
Qed.

Lemma detect_seq_len_le (s t : float) (st : State) :
  seq_len st <= MAX_BLINKS -> seq_len (detect s t st).1 <= MAX_BLINKS.
Proof.
  rewrite detect_seq_len. unfold appends. fold (seq_len st).
  destruct (negb (below_threshold s)), (is_blinking st); simpl; try lia.
  destruct (Z.ltb_spec (seq_len st) MAX_BLINKS); lia.
Qed.

(** Every completed event appends one symbol until the sequence is full. *)
Lemma run_detector_seq_len (samples : list sample) (st : State) :
  seq_len st <= MAX_BLINKS ->
  seq_len (run_detector samples st)
  = Z.min MAX_BLINKS (seq_len st + Z.of_nat (length (blink_events samples st))).
Proof.
  revert st; induction samples as [|smp rest IH]; intros st Hle; simpl.
  - lia.
  - rewrite (IH _ (detect_seq_len_le smp.1 smp.2 st Hle)), detect_seq_len.
    rewrite length_app. unfold blink_event, appends. fold (seq_len st).
    destruct (negb (below_threshold smp.1)), (is_blinking st); simpl; try lia.
    destruct (Z.ltb_spec (seq_len st) MAX_BLINKS); lia.
Qed.

Lemma process_face_seq_len_le pr f t st st' out :
  seq_len st <= MAX_BLINKS ->
  process_face pr f t st = Ok (st', out) ->
  seq_len st' <= MAX_BLINKS.
Proof.
  intros Hle. unfold process_face.
  destruct (calculate_ear pr (left_eye f)) as [l|]; [|discriminate].
  destruct (calculate_ear pr (right_eye f)) as [r|]; [|discriminate].
  cbn [mbind result_bind].
  destruct (smooth _ _) as [h sm].
  match goal with |- context [detect ?s ?t' ?st0] =>
    pose proof (detect_seq_len_le s t' st0 Hle) as Hd;
    destruct (detect s t' st0) as [st1 out1] end.
  intros [= <- _]. exact Hd.
Qed.

Lemma process_faces_seq_len_le pr fs t st st' out :
  seq_len st <= MAX_BLINKS ->
  process_faces pr fs t st = Ok (st', out) ->
  seq_len st' <= MAX_BLINKS.
Proof.
  revert st out; induction fs as [|f fs IH]; intros st out Hle; simpl.
  - intros [= <- _]. exact Hle.
  - destruct (process_face pr f t st) as [[st1 out1]|] eqn:Hf; [|discriminate].
    cbn [mbind result_bind].
    destruct (process_faces pr fs t st1) as [[st2 out2]|] eqn:Hfs; [|discriminate].
    intros [= <- _].
    eapply IH; [|exact Hfs]. eapply process_face_seq_len_le; eauto.
Qed.

(** A face as [get_landmark_coords] reports it: 6 points for each eye. *)
Definition six_points (f : face) : Prop :=
  length (left_eye f) = 6%nat /\ length (right_eye f) = 6%nat.

Lemma calculate_ear_ok (pr : promotion) (eye_points : list point) :
  length eye_points = 6%nat -> exists ear, calculate_ear pr eye_points = Ok ear.
Proof.
  intros Hlen.
  destruct eye_points as [|q0 [|q1 [|q2 [|q3 [|q4 [|q5 [|]]]]]]]; try discriminate Hlen.
  unfold calculate_ear. cbn [np_array_f32 map getitem lookup list_lookup mbind result_bind].
  destruct (SFeqb _ _); eauto.
Qed.

Lemma process_face_ok pr f t st :
  six_points f -> exists st' out, process_face pr f t st = Ok (st', out).
Proof.
  intros [Hl Hr]. unfold process_face.
  destruct (calculate_ear_ok pr _ Hl) as [l ->].
  destruct (calculate_ear_ok pr _ Hr) as [r ->].
  cbn [mbind result_bind].
  destruct (smooth _ _) as [h sm]. destruct (detect _ _ _) as [st1 out1]. eauto.
Qed.

Lemma process_faces_ok pr fs t st :
  Forall six_points fs -> exists st' out, process_faces pr fs t st = Ok (st', out).
Proof.
  revert st; induction fs as [|f fs IH]; intros st Hall; simpl; [eauto|].
  inversion_clear Hall as [|? ? Hf Hfs].
  destruct (process_face_ok pr f t st Hf) as (st1 & out1 & ->).
  cbn [mbind result_bind].
  destruct (IH st1 Hfs) as (st2 & out2 & ->). eauto.
Qed.

Lemma loop_body_seq_len_le pr i st st' out brk :
  seq_len st <= MAX_BLINKS ->
  loop_body pr i st = Ok (st', out, brk) ->
  seq_len st' <= MAX_BLINKS.
Proof.
  intros Hle. unfold loop_body.
  destruct (ret i); cbn [negb]; [|intros [= <- _ _]; exact Hle].
  match goal with |- context [process_faces pr ?fs ?t ?st0] =>
    destruct (process_faces pr fs t st0) as [[st1 out1]|] eqn:Hfs; [|discriminate] end.
  apply process_faces_seq_len_le in Hfs; [|exact Hle].
  cbn [mbind result_bind].
  destruct (Z.land (waitKey i) 255 =? ord_q); [intros [= <- _ _]; exact Hfs|].
  destruct (Z.land (waitKey i) 255 =? ord_r).
  - destruct (MAX_BLINKS <=? _); intros [= <- _ _]; unfold seq_len, MAX_BLINKS; simpl; lia.
  - destruct (MAX_BLINKS <=? _); intros [= <- _ _]; exact Hfs.
Qed.

Lemma loop_body_reset pr i st :
  ret i = true ->
  Forall six_points (multi_face_landmarks i) ->
  Z.land (waitKey i) 0xff = ord_r ->
  exists st' out,
    loop_body pr i st = Ok (st', out, false)
    /\ blink_sequence st' = [] /\ is_blinking st' = false /\ consec_blinks st' = 0.
Proof.
  intros Hret Hfaces Hkey. unfold loop_body. rewrite Hret. cbn [negb].
  match goal with |- context [process_faces pr ?fs ?t ?st0] =>
    destruct (process_faces_ok pr fs t st0 Hfaces) as (st1 & out1 & ->) end.
  cbn [mbind result_bind]. rewrite Hkey. simpl. eauto 10.
Qed.

Lemma capture_loop_seq_len_le pr inputs st st' out :
  seq_len st <= MAX_BLINKS ->
  capture_loop pr inputs st = Some (Ok (st', out)) ->
  seq_len st' <= MAX_BLINKS.
Proof.
  revert st out; induction inputs as [|i inputs IH]; intros st out Hle; simpl;
    [discriminate|].
  destruct (loop_body pr i st) as [[[st1 out1] [|]]|] eqn:Hbody; try discriminate.
  - intros [= <- _]. eapply loop_body_seq_len_le; eauto.
  - destruct (capture_loop pr inputs st1) as [[[st2 out2]|]|] eqn:Hrest; try discriminate.
    intros [= <- _]. eapply IH; [|exact Hrest]. eapply loop_body_seq_len_le; eauto.
Qed.

(** C5. The sequence never holds more than [MAX_BLINKS] symbols: a run of
    the detector appends one symbol per completed event until [MAX_BLINKS]
    are held, a sample met with a full sequence leaves it as it is, five
    events from the empty sequence leave exactly four symbols, neither a pass
    through the capture loop nor the whole loop takes the length beyond
    [MAX_BLINKS], and a pass in which the reset key is pressed ends with the
    empty sequence. *)
Theorem sequence_capped_at_max_blinks :
  (forall samples st,
      seq_len st <= MAX_BLINKS ->
      seq_len (run_detector samples st)
      = Z.min MAX_BLINKS (seq_len st + Z.of_nat (length (blink_events samples st))))
  /\ (forall s t st,
        seq_len st = MAX_BLINKS ->
        blink_sequence (detect s t st).1 = blink_sequence st)
  /\ (forall samples st,
        blink_sequence st = [] ->
        length (blink_events samples st) = 5%nat ->
        length (blink_sequence (run_detector samples st)) = 4%nat)
  /\ (forall pr i st st' out brk,
        seq_len st <= MAX_BLINKS ->
        loop_body pr i st = Ok (st', out, brk) ->
        seq_len st' <= MAX_BLINKS)
  /\ (forall pr inputs st' out,
        capture_loop pr inputs initial_state = Some (Ok (st', out)) ->
        seq_len st' <= MAX_BLINKS)
  /\ (forall pr i st,
        ret i = true ->
        Forall six_points (multi_face_landmarks i) ->
        Z.land (waitKey i) 0xff = ord_r ->
        exists st' out,
          loop_body pr i st = Ok (st', out, false)
          /\ length (blink_sequence st') = 0%nat).
Proof.
  split; [exact run_detector_seq_len|]. split.
  { intros s t st Hfull. destruct (below_threshold s) eqn:Hs.
    - apply (detect_below_fields s t st Hs).
    - destruct (detect_open_fields s t st Hs) as (-> & _).
      unfold appends. fold (seq_len st). rewrite Hfull, Z.ltb_irrefl, andb_false_r.
      reflexivity. }
  split.
  { intros samples st Hnil Hev.
    assert (Hle : seq_len st <= MAX_BLINKS)
      by (unfold seq_len; rewrite Hnil; simpl; unfold MAX_BLINKS; lia).
    pose proof (run_detector_seq_len samples st Hle) as H.
    unfold seq_len in H. rewrite Hnil, Hev in H. simpl in H.
    unfold MAX_BLINKS in H. lia. }
  split; [exact loop_body_seq_len_le|]. split.
  { intros pr inputs st' out. apply capture_loop_seq_len_le.
    unfold seq_len, MAX_BLINKS. simpl. lia. }
  intros pr i st Hret Hfaces Hkey.
  destruct (loop_body_reset pr i st Hret Hfaces Hkey) as (st' & out & Hbody & Hnil & _).
  exists st', out. rewrite Hnil. auto.
Qed.

(** Five blinks, two seconds apart, with no capture loop to stop at four. *)
Definition blink_at (b : float) : list sample :=
  [(0.125, b); (0.125, b + 0.0625); (0.125, b + 0.125); (0.5, b + 0.25)]%float.

Definition five_blinks : list sample :=
  blink_at 10 ++ blink_at 12 ++ blink_at 14 ++ blink_at 16 ++ blink_at 18.

(** A pass with a face whose eyes are closed, during which [r] is pressed. *)
Definition closed_eye : list point :=
  [(100, 200); (110, 199); (120, 199); (130, 200); (120, 201); (110, 201)]%float.

Definition reset_pass : frame_input :=
  {| ret := true;
     multi_face_landmarks := [mkFace closed_eye closed_eye];
     current_time := 20%float;
     waitKey := 114 |}.

Lemma sequence_capped_at_max_blinks_witness :
  length (blink_events five_blinks initial_state) = 5%nat
  /\ length (blink_sequence (run_detector five_blinks initial_state)) = 4%nat
  /\ (exists st' out,
        loop_body NEP50 reset_pass blinking_since_12 = Ok (st', out, false)
        /\ length (blink_sequence st') = 0%nat).
Proof.
  destruct sequence_capped_at_max_blinks as (_ & _ & Hfive & _ & _ & Hreset).
  split; [reflexivity|]. split.
  - apply Hfive; reflexivity.
  - apply Hreset; [reflexivity| |reflexivity].
    repeat constructor.
Defined.

(** ** The smoother *)

Lemma smooth_history (h : list float) (a : float) :
  (length h <= 5)%nat ->
  (smooth h a).1 = drop (length (h ++ [a]) - 5) (h ++ [a]).
Proof.
  intros Hle. unfold smooth. rewrite length_app. simpl length.
  destruct (Z.ltb_spec 5 (Z.of_nat (length h + 1))) as [Hlt|Hge]; simpl.
  - replace (length h + 1 - 5)%nat with 1%nat by lia. reflexivity.
  - replace (length h + 1 - 5)%nat with 0%nat by lia. reflexivity.
Qed.


(** The history is the last five of the samples seen. *)
Lemma history_after_last_five (raw h : list float) :
  (length h <= 5)%nat ->
  history_after raw h = drop (length (h ++ raw) - 5) (h ++ raw).
Proof.
  revert h; induction raw as [|a raw IH]; intros h Hle; cbn [history_after].
  - rewrite app_nil_r. replace (length h - 5)%nat with 0%nat by lia. reflexivity.
  - rewrite IH.
    + rewrite (smooth_history h a Hle), !length_app, length_drop, length_app.
      simpl length. rewrite (cons_middle a h raw), (app_assoc h [a] raw).
      destruct (decide (length h = 5)%nat) as [Hfull|Hroom].
      * rewrite Hfull. change (5 + 1 - 5)%nat with 1%nat.
        rewrite <- (drop_app_le _ _ 1) by (rewrite length_app; simpl; lia).
        rewrite drop_drop. f_equal. lia.
      * replace (length h + 1 - 5)%nat with 0%nat by lia. rewrite drop_0.
        f_equal. lia.
    + rewrite (smooth_history h a Hle), length_drop, length_app. simpl. lia.
Qed.








(** ** The eye aspect ratio *)











(** An eye whose two corners are reported at the same pixel ... *)
Definition degenerate_eye : list point :=
  [(100, 200); (110, 195); (120, 195); (100, 200); (120, 205); (110, 205)]%float.



(** ** The credential store *)

(** What [load_users] returns, by the state of the file. *)
Lemma load_users_cases (f : file) :
  match f with
  | Holds (JDict d) =>
      match d !! "users" with
      | Some (JDict users) => load_users f = Ok (JDict d)
      | Some _ => load_users f = Ok (JDict (<["users" := JDict ∅]> d))
      | None => load_users f = Ok empty_store
      end
  | _ => load_users f = Ok empty_store
  end.
Proof.
  destruct f as [|e|data]; try reflexivity.
  destruct data as [| | | | | |d]; try reflexivity.
  unfold load_users. cbn [os_path_exists negb open_json_load mbind result_bind].
  destruct (d !! "users") as [[]|]; reflexivity.
Qed.

Lemma users_of_empty_store : users_of empty_store = Some ∅.
Proof. reflexivity. Qed.

Lemma users_of_reset (d : gmap string json) :
  users_of (JDict (<["users" := JDict ∅]> d)) = Some ∅.
Proof. unfold users_of. rewrite lookup_insert_eq. reflexivity. Qed.

(** [load_users] never raises, and what it returns has a users mapping. *)
Lemma load_users_total (f : file) :
  exists d users,
    load_users f = Ok (JDict d) /\ d !! "users" = Some (JDict users)
    /\ stored_users f = users.
Proof.
  pose proof (load_users_cases f) as H. unfold stored_users.
  destruct f as [|e|data].
  - rewrite H. eexists _, _. split; [reflexivity|]. split; reflexivity.
  - rewrite H. eexists _, _. split; [reflexivity|]. split; reflexivity.
  - destruct data as [| | | | | |d];
      try (rewrite H; eexists _, _; split; [reflexivity|]; split; reflexivity).
    destruct (d !! "users") as [v|] eqn:Hu.
    + destruct v as [| | | | | |users];
        try (rewrite H; eexists _, _; split; [reflexivity|];
             rewrite users_of_reset, lookup_insert_eq; split; reflexivity).
      rewrite H. exists d, users. unfold users_of. rewrite Hu. auto.
    + rewrite H. eexists _, _. split; [reflexivity|]. split; reflexivity.
Qed.

(** C7 as the specification words it: a file that is absent, unreadable,
    not an object or without a mapping under "users" loads as the store
    [{"users": {}}]. *)
Definition loads_as_empty_store (f : file) : Prop :=
  well_formed_store f = false -> load_users f = Ok empty_store.

(** The file [{"users": [], "version": 1}] *)
Definition users_not_a_mapping : file :=
  Holds (JDict {[ "users" := JList []; "version" := JInt 1 ]}).

(** C7, counterexample: when "users" is there but is not a mapping, the
    object that was read is returned with "users" replaced, and it keeps its
    other keys. *)
Lemma load_users_keeps_other_keys :
  load_users users_not_a_mapping
  = Ok (JDict {[ "users" := JDict ∅; "version" := JInt 1 ]})
  /\ ~ loads_as_empty_store users_not_a_mapping.
Proof.
  assert (Hload : load_users users_not_a_mapping
                  = Ok (JDict (<["users" := JDict ∅]>
                                 {[ "users" := JList []; "version" := JInt 1 ]}))).
  { apply (load_users_cases users_not_a_mapping). }
  split.
  - rewrite Hload. reflexivity.
  - intros H. specialize (H eq_refl). rewrite Hload in H.
    apply (f_equal (fun r => match r with
                             | Ok (JDict m) => m !! "version"
                             | _ => None
                             end)) in H.
    vm_compute in H. discriminate H.
Qed.

(** C7, amended. A file that is absent, unreadable, not an object or without
    a mapping under "users" never makes [load_users] raise, and what is
    returned has the empty users mapping: the store [{"users": {}}], except
    for an object whose "users" is not a mapping, which is returned with
    "users" replaced by [{}] and its other keys kept. *)
Theorem load_users_recovers (f : file) :
  well_formed_store f = false ->
  exists db,
    load_users f = Ok db
    /\ users_of db = Some ∅
    /\ match f with
       | Holds (JDict d) =>
           match d !! "users" with
           | Some _ => db = JDict (<["users" := JDict ∅]> d)
           | None => db = empty_store
           end
       | _ => db = empty_store
       end.
Proof.
  intros Hwf. pose proof (load_users_cases f) as H.
  destruct f as [|e|data]; try solve [exists empty_store; auto].
  destruct data as [| | | | | |d]; try solve [exists empty_store; auto].
  destruct (d !! "users") as [v|] eqn:Hu; [|solve [exists empty_store; auto]].
  destruct v as [| | | | | |users];
    try (eexists; split; [exact H|]; split; [apply users_of_reset|reflexivity]).
  exfalso. unfold well_formed_store, users_of in Hwf. rewrite Hu in Hwf.
  rewrite bool_decide_eq_false in Hwf. apply Hwf. eauto.
Qed.

Lemma load_users_recovers_witness :
  exists db, load_users (Unreadable JSONDecodeError) = Ok db /\ users_of db = Some ∅.
Proof.
  destruct (load_users_recovers (Unreadable JSONDecodeError) eq_refl) as (db & H1 & H2 & _).
  exists db. split; assumption.
Defined.

(** *** Writing *)

(** A [json.dump] that raises on nothing but strings UTF-8 cannot encode,
    keys included: an interpreter without limits. *)
Fixpoint strict_dump_error_in (v : json) : bool :=
  match v with
  | JStr s => encodable s
  | JList l => forallb strict_dump_error_in l
  | JDict d => map_fold (fun k v' acc => encodable k && strict_dump_error_in v' && acc) true d
  | _ => true
  end.

Definition strict_dump_error (data : json) : option exn :=
  if strict_dump_error_in data then None else Some UnicodeEncodeError.

(** The record [set_user_pin] builds for a PIN that can be encoded. *)
Definition record_for (pin_plain : string) (now : float) : json :=
  pin_record (hashlib.sha256_hexdigest pin_plain) pin_plain now.

(** The object [set_user_pin] hands to [save_users]: what [load_users]
    returned, with the entry of [username] replaced. *)
Definition store_to_write (username pin_plain : string) (now : float) (fs : fsys) : json :=
  match load_users (readable_file fs) with
  | Ok (JDict d) =>
      JDict (<["users" := JDict (<[username := record_for pin_plain now]>
                                   (stored_users (readable_file fs)))]> d)
  | _ => JNone
  end.

Lemma readable_file_readable (fs : fsys) :
  readable fs = true -> readable_file fs = users_json fs.
Proof. unfold readable_file. intros ->. destruct (users_json fs); reflexivity. Qed.

Lemma hash_pin_encodable (pin : string) :
  encodable pin = true -> hash_pin pin = Ok (hashlib.sha256_hexdigest pin).
Proof. unfold hash_pin. intros ->. reflexivity. Qed.

Section SetUserPin.
Variable json_dump_error : json -> option exn.

Lemma set_user_pin_saves (username pin_plain : string) (now : float) (fs : fsys) :
  encodable pin_plain = true ->
  set_user_pin json_dump_error username pin_plain now fs
  = save_users json_dump_error (store_to_write username pin_plain now fs) fs
  /\ exists d,
       load_users (readable_file fs) = Ok (JDict d)
       /\ store_to_write username pin_plain now fs
          = JDict (<["users" := JDict (<[username := record_for pin_plain now]>
                                         (stored_users (readable_file fs)))]> d).
Proof.
  intros Henc.
  destruct (load_users_total (readable_file fs)) as (d & users & Hload & Hu & Hs).
  unfold set_user_pin, store_to_write. rewrite Hload, Hs.
  cbn [mbind result_bind setdefault_users]. rewrite Hu.
  cbn [mbind result_bind]. rewrite (hash_pin_encodable _ Henc).
  cbn [mbind result_bind setitem_user]. rewrite Hu. split; [reflexivity|].
  exists d. split; reflexivity.
Qed.

Lemma set_user_pin_bad_pin (username pin_plain : string) (now : float) (fs : fsys) :
  encodable pin_plain = false ->
  set_user_pin json_dump_error username pin_plain now fs = (Raise UnicodeEncodeError, fs).
Proof.
  intros Henc.
  destruct (load_users_total (readable_file fs)) as (d & users & Hload & Hu & Hs).
  unfold set_user_pin, hash_pin. rewrite Hload, Henc.
  cbn [mbind result_bind setdefault_users]. rewrite Hu. reflexivity.
Qed.
End SetUserPin.

Lemma stored_users_saved (d : gmap string json) (users : gmap string json) :
  stored_users (Holds (JDict (<["users" := JDict users]> d))) = users.
Proof.
  unfold stored_users.
  pose proof (load_users_cases (Holds (JDict (<["users" := JDict users]> d)))) as H.
  cbn beta iota in H. rewrite lookup_insert_eq in H. rewrite H.
  unfold users_of. rewrite lookup_insert_eq. reflexivity.
Qed.

(** What every case of [set_user_pin] leaves behind. *)
Lemma set_user_pin_cases dump (u pin_plain : string) (now : float) (fs : fsys) :
  encodable pin_plain = true ->
  let db := store_to_write u pin_plain now fs in
  let r := set_user_pin dump u pin_plain now fs in
  users_of db = Some (<[u := record_for pin_plain now]> (stored_users (readable_file fs)))
  /\ (writable fs = false -> r = (Raise OSError, fs))
  /\ (writable fs = true -> dump db = None ->
      r = (Ok tt, {| users_json := Holds db; readable := readable fs; writable := true |})
      /\ stored_users (readable_file r.2)
         = if readable fs
           then <[u := record_for pin_plain now]> (stored_users (readable_file fs))
           else ∅)
  /\ (writable fs = true -> forall e, dump db = Some e ->
      r = (Raise e, {| users_json := Unreadable JSONDecodeError;
                       readable := readable fs; writable := true |})
      /\ stored_users (readable_file r.2) = ∅).
Proof.
  intros Henc db r. subst db r.
  destruct (set_user_pin_saves dump u pin_plain now fs Henc) as (-> & d & Hload & Hdb).
  rewrite Hdb. unfold save_users.
  split; [unfold users_of; rewrite lookup_insert_eq; reflexivity|].
  split; [intros ->; reflexivity|].
  split.
  - intros -> ->. split; [reflexivity|].
    cbn [snd]. unfold readable_file. cbn [users_json readable].
    destruct (readable fs); [apply stored_users_saved|reflexivity].
  - intros -> e ->. split; [reflexivity|].
    cbn [snd]. unfold readable_file. cbn [users_json readable].
    destruct (readable fs); reflexivity.
Qed.

(** C3 as the specification words it: [set_user_pin] with the empty
    username fails and leaves the persisted store as it was. *)
Definition rejects_empty_username dump (pin_plain : string) (now : float) (fs : fsys)
  : Prop :=
  (exists e, (set_user_pin dump "" pin_plain now fs).1 = Raise e)
  /\ (set_user_pin dump "" pin_plain now fs).2 = fs.

Definition no_users_file : fsys :=
  {| users_json := Absent; readable := true; writable := true |}.

(** C3, counterexample: with no file yet, [set_user_pin("", "0101")]
    raises nothing and writes a record under the empty username. *)
Lemma set_user_pin_accepts_empty_username :
  set_user_pin strict_dump_error "" "0101" 1700000000 no_users_file
  = (Ok tt,
     {| users_json :=
          Holds (JDict {[ "users" :=
                   JDict {[ "" :=
                     JDict {[ "pin_hash" :=
                                JStr "07334386287751ba02a4588c1a0875dbd074a61bd9e6ab7c48d244eacd0c99e0";
                              "pin_length" := JInt 4;
                              "updated_at" := JFloat 1700000000 ]} ]} ]});
        readable := true;
        writable := true |})
  /\ ~ rejects_empty_username strict_dump_error "0101" 1700000000 no_users_file.
Proof.
  assert (H : (set_user_pin strict_dump_error "" "0101" 1700000000 no_users_file).1 = Ok tt)
    by (vm_compute; reflexivity).
  split.
  - vm_compute. reflexivity.
  - intros [[e He] _]. rewrite H in He. discriminate He.
Qed.

(** C3, amended. It is [main] that refuses an empty username: it reports
    the error and returns before the camera is opened, so [set_user_pin] is
    not called and the persisted store is left as it was. [set_user_pin]
    itself checks nothing: given the empty username it does what it does for
    any other, and when the file can be written and read and neither the
    digest nor [json.dump] raises, it returns and the record is stored under
    that name. *)
Theorem main_refuses_empty_username :
  (forall dump pr camera_opened inputs now fs,
      main dump pr "" camera_opened inputs now fs
      = Some (Ok tt, [Banner; ErrorEmptyUsername], fs))
  /\ (forall dump pin_plain now fs,
        encodable pin_plain = true ->
        writable fs = true ->
        readable fs = true ->
        dump (store_to_write "" pin_plain now fs) = None ->
        (set_user_pin dump "" pin_plain now fs).1 = Ok tt
        /\ stored_users (readable_file (set_user_pin dump "" pin_plain now fs).2) !! ""
           = Some (record_for pin_plain now)).
Proof.
  split; [reflexivity|].
  intros dump pin_plain now fs Henc Hw Hr Hdump.
  destruct (set_user_pin_cases dump "" pin_plain now fs Henc) as (_ & _ & Hok & _).
  destruct (Hok Hw Hdump) as [Hres Hstored].
  rewrite Hstored, Hres, Hr. split; [reflexivity|]. apply lookup_insert_eq.
Qed.

Lemma main_refuses_empty_username_witness :
  (set_user_pin strict_dump_error "" "0101" 1700000000 no_users_file).1 = Ok tt.
Proof.
  exact (proj1 (proj2 main_refuses_empty_username strict_dump_error "0101"
                  1700000000%float no_users_file eq_refl eq_refl eq_refl eq_refl)).
Defined.

(** C10 as the specification words it: the records of all other usernames
    are as they were, for a reader of the persisted store. *)
Definition keeps_other_records dump (u pin_plain : string) (now : float) (fs : fsys)
  : Prop :=
  forall u', u' <> u ->
    stored_users (readable_file (set_user_pin dump u pin_plain now fs).2) !! u'
    = stored_users (readable_file fs) !! u'.

(** A store with a record for "bob". *)
Definition bob_only : fsys :=
  {| users_json :=
       Holds (JDict {[ "users" := JDict {[ "bob" := record_for "0110" 1600000000 ]} ]});
     readable := true;
     writable := true |}.

(** A str of one code point, the lone surrogate U+DC80: what Python's
    [surrogateescape] decoding makes of the byte 0x80. *)
Definition surrogate_name : string :=
  String (Ascii.ascii_of_N 237) (String (Ascii.ascii_of_N 178)
    (String (Ascii.ascii_of_N 128) EmptyString)).

(** C10, counterexample: registering a username that UTF-8 cannot encode
    makes [json.dump] raise after the file was emptied; what is left is not
    JSON and the record of "bob" is gone. *)
Lemma set_user_pin_loses_records :
  encodable surrogate_name = false
  /\ set_user_pin strict_dump_error surrogate_name "0101" 1700000000 bob_only
     = (Raise UnicodeEncodeError,
        {| users_json := Unreadable JSONDecodeError; readable := true; writable := true |})
  /\ stored_users (readable_file bob_only) !! "bob" = Some (record_for "0110" 1600000000)
  /\ ~ keeps_other_records strict_dump_error surrogate_name "0101" 1700000000 bob_only.
Proof.
  assert (Hset : set_user_pin strict_dump_error surrogate_name "0101" 1700000000 bob_only
     = (Raise UnicodeEncodeError,
        {| users_json := Unreadable JSONDecodeError; readable := true; writable := true |}))
    by (vm_compute; reflexivity).
  split; [vm_compute; reflexivity|]. split; [exact Hset|].
  split; [vm_compute; reflexivity|].
  intros H. specialize (H "bob" ltac:(discriminate)). rewrite Hset in H.
  vm_compute in H. discriminate H.
Qed.

(** C10, amended. [set_user_pin u pin] reads the whole store, replaces
    only the entry of [u] and writes the whole store back over the file.
    When the file cannot be opened for writing, or the PIN cannot be encoded
    for its digest, it raises and the file is untouched. When the write goes
    through, the file holds the object that was read with only the entry of
    [u] replaced, and the record of every other username is, for a reader, as
    it was. When [json.dump] raises while writing (as for a username that
    UTF-8 cannot encode), the file is left emptied and cut off: it is not
    JSON any more, and a reader finds no record in it. *)
Theorem set_user_pin_frame dump (u pin_plain : string) (now : float) (fs : fsys) :
  let r := set_user_pin dump u pin_plain now fs in
  let db := store_to_write u pin_plain now fs in
  (encodable pin_plain = false -> r = (Raise UnicodeEncodeError, fs))
  /\ (encodable pin_plain = true -> writable fs = false -> r = (Raise OSError, fs))
  /\ (encodable pin_plain = true -> writable fs = true -> dump db = None ->
      r.1 = Ok tt
      /\ users_json r.2 = Holds db
      /\ (exists d, load_users (readable_file fs) = Ok (JDict d)
            /\ db = JDict (<["users" := JDict (<[u := record_for pin_plain now]>
                                                 (stored_users (readable_file fs)))]> d))
      /\ (forall u', u' <> u ->
            stored_users (readable_file r.2) !! u' = stored_users (readable_file fs) !! u'))
  /\ (encodable pin_plain = true -> writable fs = true ->
      forall e, dump db = Some e ->
        r.1 = Raise e
        /\ users_json r.2 = Unreadable JSONDecodeError
        /\ stored_users (readable_file r.2) = ∅).
Proof.
  intros r db. subst r db.
  split; [apply set_user_pin_bad_pin|].
  split; [|split].
  - intros Henc. apply (set_user_pin_cases dump u pin_plain now fs Henc).
  - intros Henc Hw Hdump.
    destruct (set_user_pin_cases dump u pin_plain now fs Henc) as (_ & _ & Hok & _).
    destruct (Hok Hw Hdump) as [Hres Hstored].
    destruct (set_user_pin_saves dump u pin_plain now fs Henc) as (_ & d & Hload & Hdb).
    rewrite Hstored, Hres. cbn [fst snd users_json].
    split; [reflexivity|]. split; [reflexivity|]. split; [eauto|].
    intros u' Hne. destruct (readable fs) eqn:Hr.
    + apply lookup_insert_ne. congruence.
    + unfold readable_file. rewrite Hr.
      destruct (users_json fs); reflexivity.
  - intros Henc Hw e Hdump.
    destruct (set_user_pin_cases dump u pin_plain now fs Henc) as (_ & _ & _ & Hcut).
    destruct (Hcut Hw e Hdump) as [Hres Hstored].
    rewrite Hstored, Hres. auto.
Qed.

Lemma set_user_pin_frame_witness :
  stored_users
    (readable_file (set_user_pin strict_dump_error "alice" "0101" 1700000000 bob_only).2)
  !! "bob"
  = Some (record_for "0110" 1600000000).
Proof.
  destruct (set_user_pin_frame strict_dump_error "alice" "0101" 1700000000%float bob_only)
    as (_ & _ & Hok & _).
  destruct (Hok eq_refl eq_refl ltac:(vm_compute; reflexivity)) as (_ & _ & _ & Hother).
  rewrite (Hother "bob" ltac:(discriminate)). vm_compute. reflexivity.
Defined.

(** * More of the code *)

(** ** [calculate_ear] and its input *)

(** With fewer than 6 points [calculate_ear] raises [IndexError]; points
    after the sixth are never read. *)
Theorem calculate_ear_reads_six_points (pr : promotion) (eye_points : list point) :
  ((length eye_points < 6)%nat -> calculate_ear pr eye_points = Raise IndexError)
  /\ (length eye_points = 6%nat ->
      forall more, calculate_ear pr (eye_points ++ more) = calculate_ear pr eye_points).
Proof.
  split.
  - intros Hlt.
    destruct eye_points as [|q0 [|q1 [|q2 [|q3 [|q4 [|q5 rest]]]]]];
      try reflexivity.
    simpl in Hlt. lia.
  - intros Hlen more.
    destruct eye_points as [|q0 [|q1 [|q2 [|q3 [|q4 [|q5 [|]]]]]]]; try discriminate Hlen.
    reflexivity.
Qed.

Lemma calculate_ear_reads_six_points_witness :
  calculate_ear NEP50 (take 5 degenerate_eye) = Raise IndexError
  /\ calculate_ear NEP50 (degenerate_eye ++ [(1, 1)%float]) = calculate_ear NEP50 degenerate_eye.
Proof.
  split.
  - apply (proj1 (calculate_ear_reads_six_points NEP50 (take 5 degenerate_eye))).
    simpl. lia.
  - apply (proj2 (calculate_ear_reads_six_points NEP50 degenerate_eye) eq_refl).
Defined.

(** The pixel of one landmark: [[int(lm.x * width), int(lm.y * height)]]. *)
Definition landmark_pixel (lm : landmark) (width height : Z) : result (Z * Z) :=
  w ← float_of_int width;
  x ← int_of_float (lm.1 * w)%float;
  h ← float_of_int height;
  y ← int_of_float (lm.2 * h)%float;
  Ok (x, y).

Lemma get_landmark_coords_cons landmarks idx indices width height :
  get_landmark_coords landmarks (idx :: indices) width height
  = match landmarks !! idx with
    | None => Raise IndexError
    | Some lm =>
        c ← landmark_pixel lm width height;
        coords ← get_landmark_coords landmarks indices width height;
        Ok (c :: coords)
    end.
Proof.
  cbn [get_landmark_coords]. destruct (landmarks !! idx) as [lm|]; [|reflexivity].
  unfold landmark_pixel.
  destruct (float_of_int width) as [w|]; [|reflexivity]. cbn [mbind result_bind].
  destruct (int_of_float _) as [x|]; [|reflexivity]. cbn [mbind result_bind].
  destruct (float_of_int height) as [h|]; [|reflexivity]. cbn [mbind result_bind].
  destruct (int_of_float _) as [y|]; reflexivity.
Qed.

Lemma get_landmark_coords_length landmarks indices width height coords :
  get_landmark_coords landmarks indices width height = Ok coords ->
  length coords = length indices.
Proof.
  revert coords; induction indices as [|idx indices IH]; intros coords.
  - intros [= <-]. reflexivity.
  - rewrite get_landmark_coords_cons.
    destruct (landmarks !! idx) as [lm|]; [|discriminate].
    destruct (landmark_pixel lm width height) as [c|]; [|discriminate].
    cbn [mbind result_bind].
    destruct (get_landmark_coords landmarks indices width height) as [cs|];
      [|discriminate].
    intros [= <-]. simpl. f_equal. apply IH. reflexivity.
Qed.

(** [get_landmark_coords] returns exactly when every index is within the
    landmark list and every scaled coordinate converts to an int, and then
    it returns the pixels of the indexed landmarks, one per index, in the
    order of the indices. *)
Theorem get_landmark_coords_pointwise landmarks indices width height coords :
  get_landmark_coords landmarks indices width height = Ok coords
  <-> Forall2 (fun idx c => exists lm, landmarks !! idx = Some lm
                              /\ landmark_pixel lm width height = Ok c)
              indices coords.
Proof.
  revert coords; induction indices as [|idx indices IH]; intros coords.
  - simpl. split.
    + intros [= <-]. constructor.
    + intros H. inversion H. reflexivity.
  - rewrite get_landmark_coords_cons. split.
    + destruct (landmarks !! idx) as [lm|] eqn:Hlm; [|discriminate].
      destruct (landmark_pixel lm width height) as [c|] eqn:Hc; [|discriminate].
      cbn [mbind result_bind].
      destruct (get_landmark_coords landmarks indices width height) as [cs|] eqn:Hcs;
        [|discriminate].
      intros [= <-]. constructor; [eauto|]. apply IH. reflexivity.
    + intros H. inversion H as [|? c ? cs (lm & Hlm & Hc) Hrest]; subst.
      rewrite Hlm, Hc. cbn [mbind result_bind].
      apply IH in Hrest. rewrite Hrest. reflexivity.
Qed.

Lemma get_landmark_coords_pointwise_witness :
  get_landmark_coords [(0.5, 0.25); (0.125, 0.75)]%float [1; 0]%nat 640 480
  = Ok [(80, 360); (320, 120)].
Proof.
  apply (proj2 (get_landmark_coords_pointwise [(0.5, 0.25); (0.125, 0.75)]%float
                  [1; 0]%nat 640 480 [(80, 360); (320, 120)])).
  repeat constructor.
  - exists (0.125, 0.75)%float. split; reflexivity.
  - exists (0.5, 0.25)%float. split; reflexivity.
Defined.

(** A landmark list of the size MediaPipe gives with refined landmarks,
    every landmark at the middle of a 640 x 480 frame. *)
Definition centred_mesh : list landmark := replicate 478 (0.5, 0.5)%float.

(** Lines 85 to 89 of register_pin.py: the landmarks of a face in a frame
    of [w] x [h] pixels flow into [calculate_ear] without an exception. When
    both eyes' coordinates are returned, each eye has 6 points and
    [calculate_ear] returns an aspect ratio for each; and they are returned
    whenever the list has more than 387 landmarks and each of them
    converts. *)
Theorem landmarks_to_ear_no_exception (landmarks : list landmark) (w h : Z) :
  (forall f, face_of_landmarks landmarks w h = Ok f ->
     six_points f
     /\ forall pr, exists l r, calculate_ear pr (left_eye f) = Ok l
                          /\ calculate_ear pr (right_eye f) = Ok r)
  /\ ((387 < length landmarks)%nat ->
      Forall (fun lm => exists c, landmark_pixel lm w h = Ok c) landmarks ->
      exists f, face_of_landmarks landmarks w h = Ok f).
Proof.
  split.
  - intros f. unfold face_of_landmarks.
    destruct (get_landmark_coords landmarks LEFT_EYE_LANDMARKS w h) as [l|] eqn:Hl;
      [|discriminate].
    destruct (get_landmark_coords landmarks RIGHT_EYE_LANDMARKS w h) as [r|] eqn:Hr;
      [|discriminate].
    cbn [mbind result_bind]. intros [= <-].
    apply get_landmark_coords_length in Hl, Hr.
    assert (Hsix : six_points (mkFace (map pixel_point l) (map pixel_point r))).
    { split; cbn [left_eye right_eye]; rewrite length_map; assumption. }
    split; [exact Hsix|]. intros pr. destruct Hsix as [Hsl Hsr].
    destruct (calculate_ear_ok pr _ Hsl) as [el Hel].
    destruct (calculate_ear_ok pr _ Hsr) as [er Her]. eauto.
  - intros Hlen Hall. unfold face_of_landmarks.
    assert (Hidx : forall indices, Forall (fun i => (i <= 387)%nat) indices ->
              exists cs, get_landmark_coords landmarks indices w h = Ok cs).
    { induction indices as [|i indices IH]; intros Hi.
      - exists []. reflexivity.
      - inversion_clear Hi as [|? ? Hle Hrest].
        destruct (IH Hrest) as [cs Hcs].
        destruct (lookup_lt_is_Some_2 landmarks i ltac:(lia)) as [lm Hlm].
        rewrite Forall_lookup in Hall. destruct (Hall i lm Hlm) as [c Hc].
        exists (c :: cs). rewrite get_landmark_coords_cons, Hlm, Hc.
        cbn [mbind result_bind]. rewrite Hcs. reflexivity. }
    destruct (Hidx LEFT_EYE_LANDMARKS) as [l ->].
    { unfold LEFT_EYE_LANDMARKS. repeat constructor; lia. }
    destruct (Hidx RIGHT_EYE_LANDMARKS) as [r ->].
    { unfold RIGHT_EYE_LANDMARKS. repeat constructor; lia. }
    cbn [mbind result_bind]. eauto.
Qed.

Lemma landmarks_to_ear_no_exception_witness :
  exists f, face_of_landmarks centred_mesh 640 480 = Ok f.
Proof.
  apply (proj2 (landmarks_to_ear_no_exception centred_mesh 640 480)).
  - vm_compute. lia.
  - apply Forall_replicate. exists (320, 240). reflexivity.
Defined.

(** ** The smoothing window in the capture loop *)

Lemma history_after_length (raw h : list float) :
  (length h <= 5)%nat ->
  length (history_after raw h) = Nat.min 5 (length h + length raw).
Proof.
  intros Hle. rewrite (history_after_last_five raw h Hle), length_drop, length_app. lia.
Qed.

Lemma process_face_history pr f t st st' out :
  (length (ear_history st) <= 5)%nat ->
  process_face pr f t st = Ok (st', out) ->
  (1 <= length (ear_history st') <= 5)%nat.
Proof.
  intros Hle. unfold process_face.
  destruct (calculate_ear pr (left_eye f)) as [l|]; [|discriminate].
  destruct (calculate_ear pr (right_eye f)) as [r|]; [|discriminate].
  cbn [mbind result_bind].
  pose proof (smooth_history (ear_history st) ((l + r) / 2)%float Hle) as Hh.
  destruct (smooth _ _) as [h sm]. cbn [fst] in Hh.
  match goal with |- context [detect ?s ?t' ?st0] =>
    assert (Hd : ear_history (detect s t' st0).1 = h);
    [destruct (below_threshold s) eqn:Hs;
     [apply (detect_below_fields s t' st0 Hs) | apply (detect_open_fields s t' st0 Hs)]|];
    destruct (detect s t' st0) as [st1 out1] end.
  intros [= <- _]. cbn [fst] in Hd. rewrite Hd, Hh, length_drop, length_app. simpl. lia.
Qed.

Lemma process_faces_history pr fs t st st' out :
  (length (ear_history st) <= 5)%nat ->
  process_faces pr fs t st = Ok (st', out) ->
  (length (ear_history st') <= 5)%nat.
Proof.
  revert st out; induction fs as [|f fs IH]; intros st out Hle; simpl.
  - intros [= <- _]. exact Hle.
  - destruct (process_face pr f t st) as [[st1 out1]|] eqn:Hf; [|discriminate].
    cbn [mbind result_bind].
    destruct (process_faces pr fs t st1) as [[st2 out2]|] eqn:Hfs; [|discriminate].
    intros [= <- _]. eapply IH; [|exact Hfs].
    apply (process_face_history pr f t st st1 out1 Hle Hf).
Qed.

Lemma loop_body_history pr i st st' out brk :
  (length (ear_history st) <= 5)%nat ->
  loop_body pr i st = Ok (st', out, brk) ->
  (length (ear_history st') <= 5)%nat.
Proof.
  intros Hle. unfold loop_body.
  destruct (ret i); cbn [negb]; [|intros [= <- _ _]; exact Hle].
  match goal with |- context [process_faces pr ?fs ?t ?st0] =>
    destruct (process_faces pr fs t st0) as [[st1 out1]|] eqn:Hfs; [|discriminate] end.
  apply process_faces_history in Hfs; [|exact Hle].
  cbn [mbind result_bind].
  destruct (Z.land (waitKey i) 255 =? ord_q); [intros [= <- _ _]; exact Hfs|].
  destruct (Z.land (waitKey i) 255 =? ord_r);
    destruct (MAX_BLINKS <=? _); intros [= <- _ _]; exact Hfs.
Qed.

(** The smoothing window holds the last 5 raw samples at most: fed with
    [raw] from a history of at most 5 it holds [min 5 (old + new)] samples,
    every face processed leaves between 1 and 5, and the capture loop never
    ends with more than 5. *)
Theorem smoothing_window_bounded :
  (forall raw h, (length h <= 5)%nat ->
     length (history_after raw h) = Nat.min 5 (length h + length raw))
  /\ (forall pr f t st st' out,
        (length (ear_history st) <= 5)%nat ->
        process_face pr f t st = Ok (st', out) ->
        (1 <= length (ear_history st') <= 5)%nat)
  /\ (forall pr inputs st' out,
        capture_loop pr inputs initial_state = Some (Ok (st', out)) ->
        (length (ear_history st') <= 5)%nat).
Proof.
  split; [exact history_after_length|]. split; [exact process_face_history|].
  intros pr inputs.
  assert (H : forall st st' out, (length (ear_history st) <= 5)%nat ->
            capture_loop pr inputs st = Some (Ok (st', out)) ->
            (length (ear_history st') <= 5)%nat).
  { induction inputs as [|i inputs IH]; intros st st' out Hle; simpl; [discriminate|].
    destruct (loop_body pr i st) as [[[st1 out1] [|]]|] eqn:Hbody; try discriminate.
    - intros [= <- _]. eapply loop_body_history; eauto.
    - destruct (capture_loop pr inputs st1) as [[[st2 out2]|]|] eqn:Hrest; try discriminate.
      intros [= <- _]. eapply IH; [|exact Hrest]. eapply loop_body_history; eauto. }
  intros st' out. apply H. simpl. lia.
Qed.

Lemma smoothing_window_bounded_witness :
  length (history_after (replicate 7 0.3125%float) [0.5; 0.125]%float) = 5%nat.
Proof.
  rewrite (proj1 smoothing_window_bounded (replicate 7 0.3125%float) [0.5; 0.125]%float
             ltac:(simpl; lia)).
  reflexivity.
Defined.

(** ** States the detector can be in *)

(** The counter is never negative, and a closure is confirmed only with
    the counter at [CONSEC_FRAMES] or more. *)
Definition detector_consistent (st : State) : Prop :=
  0 <= consec_blinks st
  /\ (is_blinking st = true -> CONSEC_FRAMES <= consec_blinks st).

Lemma detect_consistent (s t : float) (st : State) :
  detector_consistent st -> detector_consistent (detect s t st).1.
Proof.
  intros [Hc Hb]. unfold detector_consistent.
  destruct (below_threshold s) eqn:Hs.
  - destruct (detect_below_fields s t st Hs) as (_ & _ & -> & -> & _).
    split; [lia|]. unfold confirms.
    destruct (is_blinking st); cbn [negb andb orb]; [intros _; specialize (Hb eq_refl); lia|].
    destruct (Z.leb_spec CONSEC_FRAMES (consec_blinks st + 1)); cbn [andb];
      [intros _; assumption|discriminate].
  - destruct (detect_open_fields s t st Hs) as (_ & _ & -> & -> & _).
    split; [lia|discriminate].
Qed.

Lemma process_face_consistent pr f t st st' out :
  detector_consistent st ->
  process_face pr f t st = Ok (st', out) ->
  detector_consistent st'.
Proof.
  intros Hinv. unfold process_face.
  destruct (calculate_ear pr (left_eye f)) as [l|]; [|discriminate].
  destruct (calculate_ear pr (right_eye f)) as [r|]; [|discriminate].
  cbn [mbind result_bind].
  destruct (smooth _ _) as [h sm].
  match goal with |- context [detect ?s ?t' ?st0] =>
    pose proof (detect_consistent s t' st0 Hinv) as Hd;
    destruct (detect s t' st0) as [st1 out1] end.
  intros [= <- _]. exact Hd.
Qed.

Lemma process_faces_consistent pr fs t st st' out :
  detector_consistent st ->
  process_faces pr fs t st = Ok (st', out) ->
  detector_consistent st'.
Proof.
  revert st out; induction fs as [|f fs IH]; intros st out Hinv; simpl.
  - intros [= <- _]. exact Hinv.
  - destruct (process_face pr f t st) as [[st1 out1]|] eqn:Hf; [|discriminate].
    cbn [mbind result_bind].
    destruct (process_faces pr fs t st1) as [[st2 out2]|] eqn:Hfs; [|discriminate].
    intros [= <- _]. eapply IH; [|exact Hfs]. eapply process_face_consistent; eauto.
Qed.

Lemma loop_body_consistent pr i st st' out brk :
  detector_consistent st ->
  loop_body pr i st = Ok (st', out, brk) ->
  detector_consistent st'.
Proof.
  intros Hinv. unfold loop_body.
  destruct (ret i); cbn [negb]; [|intros [= <- _ _]; exact Hinv].
  match goal with |- context [process_faces pr ?fs ?t ?st0] =>
    destruct (process_faces pr fs t st0) as [[st1 out1]|] eqn:Hfs; [|discriminate] end.
  apply process_faces_consistent in Hfs; [|exact Hinv].
  cbn [mbind result_bind].
  destruct (Z.land (waitKey i) 255 =? ord_q); [intros [= <- _ _]; exact Hfs|].
  destruct (Z.land (waitKey i) 255 =? ord_r).
  - destruct (MAX_BLINKS <=? _); intros [= <- _ _];
      (split; cbn; [lia|discriminate]).
  - destruct (MAX_BLINKS <=? _); intros [= <- _ _]; exact Hfs.
Qed.

(** In every state the capture loop passes through, started as [main] starts
    it, the below-threshold counter is not negative and a closure counts as
    confirmed only while the counter is at [CONSEC_FRAMES] or more; each
    sample given to the detector and each pass through the loop keeps it so. *)
Theorem detector_state_consistent :
  detector_consistent initial_state
  /\ (forall s t st, detector_consistent st -> detector_consistent (detect s t st).1)
  /\ (forall pr i st st' out brk,
        detector_consistent st ->
        loop_body pr i st = Ok (st', out, brk) ->
        detector_consistent st')
  /\ (forall pr inputs st' out,
        capture_loop pr inputs initial_state = Some (Ok (st', out)) ->
        detector_consistent st').
Proof.
  assert (Hinit : detector_consistent initial_state).
  { split; cbn; [lia|discriminate]. }
  split; [exact Hinit|]. split; [exact detect_consistent|].
  split; [exact loop_body_consistent|].
  intros pr inputs.
  assert (H : forall st st' out, detector_consistent st ->
            capture_loop pr inputs st = Some (Ok (st', out)) ->
            detector_consistent st').
  { induction inputs as [|i inputs IH]; intros st st' out Hinv; simpl; [discriminate|].
    destruct (loop_body pr i st) as [[[st1 out1] [|]]|] eqn:Hbody; try discriminate.
    - intros [= <- _]. eapply loop_body_consistent; eauto.
    - destruct (capture_loop pr inputs st1) as [[[st2 out2]|]|] eqn:Hrest; try discriminate.
      intros [= <- _]. eapply IH; [|exact Hrest]. eapply loop_body_consistent; eauto. }
  intros st' out. apply H, Hinit.
Qed.

Lemma detector_state_consistent_witness :
  detector_consistent (detect 0.125 10 initial_state).1.
Proof.
  destruct detector_state_consistent as (Hinit & Hdetect & _).
  apply Hdetect, Hinit.
Defined.

(** ** What a run of the detector prints and appends *)

(** What the detector prints over a list of samples. *)
Fixpoint detector_outputs (samples : list sample) (st : State) : list output :=
  match samples with
  | [] => []
  | smp :: rest =>
      (detect smp.1 smp.2 st).2 ++ detector_outputs rest (detect smp.1 smp.2 st).1
  end.

Definition is_blink_start (o : output) : bool :=
  match o with BlinkStart _ => true | _ => false end.

Definition is_detected (o : output) : bool :=
  match o with Detected _ _ _ => true | _ => false end.

Definition count (p : output -> bool) (l : list output) : Z :=
  Z.of_nat (length (filter (fun o => p o = true) l)).

Lemma count_app p l1 l2 : count p (l1 ++ l2) = count p l1 + count p l2.
Proof. unfold count. rewrite filter_app, length_app. lia. Qed.

Lemma detect_step_counts (s t : float) (st : State) :
  count is_blink_start (detect s t st).2 + Z.b2z (is_blinking st)
  = Z.of_nat (length (option_list (blink_event (s, t) st)))
    + Z.b2z (is_blinking (detect s t st).1)
  /\ count is_detected (detect s t st).2
     = seq_len (detect s t st).1 - seq_len st.
Proof.
  rewrite detect_seq_len. destruct (below_threshold s) eqn:Hs.
  - destruct (detect_below_fields s t st Hs) as (_ & _ & _ & -> & _).
    rewrite (detect_below_output s t st Hs), (blink_event_below (s, t) st Hs).
    unfold confirms. destruct (is_blinking st); cbn [negb andb orb];
      [split; unfold count; simpl; lia|].
    destruct (CONSEC_FRAMES <=? _); cbn [andb]; [|split; unfold count; simpl; lia].
    destruct (interval_elapsed _ _); split; unfold count; simpl; lia.
  - destruct (detect_open_fields s t st Hs) as (_ & _ & _ & -> & _).
    rewrite (detect_open_output s t st Hs), (blink_event_open (s, t) st Hs).
    unfold appends. destruct (is_blinking st); cbn [negb andb];
      [|split; unfold count; simpl; lia].
    destruct (_ <? MAX_BLINKS); split; unfold count; simpl; lia.
Qed.

(** Over any run of the detector, starts and completed events pair up: the
    closures announced ([BLINK START]) are the events completed plus the one
    still in progress, if any, less the one that was in progress at the
    beginning; and the blinks announced ([DETECTED]) are exactly the symbols
    the sequence has gained. *)
Theorem starts_pair_with_events (samples : list sample) (st : State) :
  count is_blink_start (detector_outputs samples st) + Z.b2z (is_blinking st)
  = Z.of_nat (length (blink_events samples st))
    + Z.b2z (is_blinking (run_detector samples st))
  /\ count is_detected (detector_outputs samples st)
     = seq_len (run_detector samples st) - seq_len st.
Proof.
  revert st; induction samples as [|[s t] rest IH]; intros st; simpl.
  - split; unfold count; simpl; lia.
  - destruct (IH (detect s t st).1) as [IH1 IH2].
    destruct (detect_step_counts s t st) as [H1 H2].
    rewrite !count_app, length_app. split; lia.
Qed.

Lemma take_app_full {A : Type} (l k k' : list A) (n : nat) :
  length l = n -> take n (l ++ k) = take n (l ++ k').
Proof. intros <-. rewrite !take_app_length. reflexivity. Qed.

(** The sequence a run of the detector leaves is the sequence it started
    with followed by the classes of the durations of the events completed,
    in their order, cut at [MAX_BLINKS] symbols. *)
Theorem sequence_is_classified_events (samples : list sample) (st : State) :
  seq_len st <= MAX_BLINKS ->
  blink_sequence (run_detector samples st)
  = take (Z.to_nat MAX_BLINKS)
      (blink_sequence st
       ++ map (fun e => (classify (duration e)).1) (blink_events samples st)).
Proof.
  revert st; induction samples as [|[s t] rest IH]; intros st Hle; simpl.
  - rewrite app_nil_r, take_ge; [reflexivity|]. unfold seq_len in Hle. lia.
  - rewrite (IH _ (detect_seq_len_le s t st Hle)).
    destruct (below_threshold s) eqn:Hs.
    + destruct (detect_below_fields s t st Hs) as (-> & _).
      rewrite (blink_event_below (s, t) st Hs). reflexivity.
    + destruct (detect_open_fields s t st Hs) as (-> & _).
      rewrite (blink_event_open (s, t) st Hs). unfold appends.
      destruct (is_blinking st); cbn [andb]; [|reflexivity].
      fold (seq_len st). destruct (Z.ltb_spec (seq_len st) MAX_BLINKS) as [Hlt|Hge].
      * simpl. rewrite <- app_assoc. reflexivity.
      * simpl. apply take_app_full. unfold seq_len in *. lia.
Qed.

Lemma sequence_is_classified_events_witness :
  blink_sequence (run_detector five_blinks initial_state) = [quick; quick; quick; quick].
Proof.
  rewrite (sequence_is_classified_events five_blinks initial_state
             ltac:(vm_compute; discriminate)).
  reflexivity.
Defined.

(** ** The digits of a sequence *)

(** The character of a symbol's digit. *)
Definition digit_char (b : blink_type) : Ascii.ascii :=
  match BLINK_TO_DIGIT b with
  | String c _ => c
  | EmptyString => Ascii.zero
  end.

Lemma pin_str_of_cons (b : blink_type) (seq : list blink_type) :
  pin_str_of (b :: seq) = String (digit_char b) (pin_str_of seq).
Proof.
  unfold pin_str_of. simpl. destruct (map BLINK_TO_DIGIT seq) eqn:Hm; destruct b; reflexivity.
Qed.

Lemma pin_str_of_length (seq : list blink_type) :
  String.length (pin_str_of seq) = length seq.
Proof.
  induction seq as [|b seq IH]; [reflexivity|].
  rewrite pin_str_of_cons. cbn [String.length length]. rewrite IH. reflexivity.
Qed.

Lemma pin_str_of_py_len (seq : list blink_type) :
  py_len (pin_str_of seq) = Z.of_nat (length seq).
Proof.
  induction seq as [|b seq IH]; [reflexivity|].
  rewrite pin_str_of_cons. unfold py_len, hashlib.bytes_of in *.
  cbn [String.list_ascii_of_string map filter].
  rewrite filter_cons_True by (destruct b; vm_compute; discriminate).
  cbn [length]. lia.
Qed.

Lemma pin_str_of_encodable (seq : list blink_type) :
  encodable (pin_str_of seq) = true.
Proof.
  induction seq as [|b seq IH]; [reflexivity|].
  rewrite pin_str_of_cons. unfold encodable, hashlib.bytes_of in *.
  cbn [String.list_ascii_of_string map]. destruct b; exact IH.
Qed.

(** The PIN string of a sequence has one character per symbol, "0" for a
    quick and "1" for a long blink, so its Python length is the number of
    blinks and two different sequences never give the same PIN. *)
Theorem pin_str_of_faithful :
  (forall seq, String.length (pin_str_of seq) = length seq)
  /\ (forall seq, py_len (pin_str_of seq) = Z.of_nat (length seq))
  /\ (forall seq i b, seq !! i = Some b ->
        String.substring i 1 (pin_str_of seq) = BLINK_TO_DIGIT b)
  /\ (forall seq1 seq2, pin_str_of seq1 = pin_str_of seq2 -> seq1 = seq2).
Proof.
  split; [exact pin_str_of_length|]. split; [exact pin_str_of_py_len|]. split.
  - induction seq as [|b seq IH]; intros i b' Hi; [discriminate|].
    rewrite pin_str_of_cons. destruct i as [|i].
    + injection Hi as ->. destruct b', (pin_str_of seq); reflexivity.
    + cbn [String.substring]. apply IH. exact Hi.
  - induction seq1 as [|b1 seq1 IH]; intros [|b2 seq2]; try reflexivity.
    + rewrite pin_str_of_cons. discriminate.
    + rewrite pin_str_of_cons. discriminate.
    + rewrite !pin_str_of_cons. intros [= Hc H].
      f_equal; [|apply IH; exact H].
      destruct b1, b2; try reflexivity; vm_compute in Hc; discriminate Hc.
Qed.

Lemma pin_str_of_faithful_witness :
  String.substring 1 1 (pin_str_of [quick; long; quick; long]) = "1".
Proof.
  exact (proj1 (proj2 (proj2 pin_str_of_faithful)) [quick; long; quick; long] 1%nat long
           eq_refl).
Defined.

(** ** Writing and reading records *)

(** The file after a write that went through. *)
Definition written (db : json) (fs : fsys) : fsys :=
  {| users_json := Holds db; readable := readable fs; writable := true |}.

Lemma set_user_pin_written dump (u pin_plain : string) (now : float) (fs : fsys) :
  encodable pin_plain = true ->
  writable fs = true ->
  dump (store_to_write u pin_plain now fs) = None ->
  set_user_pin dump u pin_plain now fs
  = (Ok tt, written (store_to_write u pin_plain now fs) fs).
Proof.
  intros Henc Hw Hdump.
  destruct (set_user_pin_cases dump u pin_plain now fs Henc) as (_ & _ & Hok & _).
  apply (Hok Hw Hdump).
Qed.

Lemma stored_users_written (u pin_plain : string) (now : float) (fs : fsys) :
  readable fs = true ->
  stored_users (readable_file (written (store_to_write u pin_plain now fs) fs))
  = <[u := record_for pin_plain now]> (stored_users (readable_file fs)).
Proof.
  intros Hr. unfold readable_file at 1, written. cbn [users_json readable]. rewrite Hr.
  unfold store_to_write.
  destruct (load_users_total (readable_file fs)) as (d & users & -> & _ & _).
  apply stored_users_saved.
Qed.

Lemma load_users_saved (d users : gmap string json) :
  load_users (Holds (JDict (<["users" := JDict users]> d)))
  = Ok (JDict (<["users" := JDict users]> d)).
Proof.
  pose proof (load_users_cases (Holds (JDict (<["users" := JDict users]> d)))) as H.
  cbn beta iota in H. rewrite lookup_insert_eq in H. exact H.
Qed.

(** What a second registration hands to [save_users] after a first that
    went through on a file that can be read. *)
Lemma store_to_write_written (u1 u2 pin1 pin2 : string) (now1 now2 : float) (fs : fsys) :
  readable fs = true ->
  exists d,
    load_users (readable_file fs) = Ok (JDict d)
    /\ store_to_write u2 pin2 now2 (written (store_to_write u1 pin1 now1 fs) fs)
       = JDict (<["users" := JDict (<[u2 := record_for pin2 now2]>
                                      (<[u1 := record_for pin1 now1]>
                                         (stored_users (readable_file fs))))]> d).
Proof.
  intros Hr.
  destruct (load_users_total (readable_file fs)) as (d & users & Hload & _ & _).
  exists d. split; [exact Hload|].
  unfold store_to_write at 1. rewrite (stored_users_written u1 pin1 now1 fs Hr).
  unfold readable_file at 1, written. cbn [users_json readable]. rewrite Hr.
  unfold store_to_write. rewrite Hload, load_users_saved, insert_insert_eq. reflexivity.
Qed.

(** Where the file cannot be read, every registration starts from the
    empty store. *)
Lemma store_to_write_unreadable (u pin_plain : string) (now : float) (fs : fsys) :
  readable fs = false ->
  store_to_write u pin_plain now fs
  = JDict {[ "users" := JDict {[ u := record_for pin_plain now ]} ]}.
Proof.
  intros Hr. unfold store_to_write, readable_file. rewrite Hr.
  destruct (users_json fs); reflexivity.
Qed.

Lemma stored_users_unreadable (fs : fsys) :
  readable fs = false -> stored_users (readable_file fs) = ∅.
Proof.
  intros Hr. unfold readable_file. rewrite Hr. destruct (users_json fs); reflexivity.
Qed.

(** What the two readers do with the record found for [username]. *)
Definition hash_of_record (user : json) : result json :=
  if negb (truthy user) then Ok JNone
  else
    match user with
    | JDict r => Ok (default JNone (r !! "pin_hash"))
    | _ => Raise AttributeError
    end.

Definition length_of_record (int_of_str : string -> result Z) (default_length : Z)
    (user : json) : result Z :=
  if negb (truthy user) then Ok default_length
  else
    match user with
    | JDict r => py_int int_of_str (default (JInt default_length) (r !! "pin_length"))
    | _ => Raise AttributeError
    end.

Lemma get_user_loaded (f : file) (username : string) :
  exists db, load_users f = Ok db
    /\ get_user db username = Ok (default JNone (stored_users f !! username)).
Proof.
  destruct (load_users_total f) as (d & users & Hload & Hu & Hs).
  exists (JDict d). split; [exact Hload|].
  unfold get_user. rewrite Hu, Hs. reflexivity.
Qed.

Lemma get_user_pin_hash_stored (username : string) (f : file) :
  get_user_pin_hash username f
  = hash_of_record (default JNone (stored_users f !! username)).
Proof.
  unfold get_user_pin_hash. destruct (get_user_loaded f username) as (db & -> & Hg).
  cbn [mbind result_bind]. rewrite Hg. reflexivity.
Qed.

Lemma get_user_pin_length_stored ios (username : string) (dl : Z) (f : file) :
  get_user_pin_length ios username dl f
  = length_of_record ios dl (default JNone (stored_users f !! username)).
Proof.
  unfold get_user_pin_length. destruct (get_user_loaded f username) as (db & -> & Hg).
  cbn [mbind result_bind]. rewrite Hg. reflexivity.
Qed.

Lemma stored_users_malformed (f : file) :
  well_formed_store f = false -> stored_users f = ∅.
Proof.
  intros Hwf. pose proof (load_users_cases f) as H. unfold stored_users.
  destruct f as [|e|data]; try (rewrite H; reflexivity).
  destruct data as [| | | | | |d]; try (rewrite H; reflexivity).
  destruct (d !! "users") as [v|] eqn:Hu; [|rewrite H; reflexivity].
  destruct v as [| | | | | |users]; try (rewrite H, users_of_reset; reflexivity).
  exfalso. unfold well_formed_store, users_of in Hwf. rewrite Hu in Hwf.
  rewrite bool_decide_eq_false in Hwf. apply Hwf. eauto.
Qed.

(** A username without a record is unknown to both readers: the hash is
    [None] and the length is the default. This is so for every username when
    the file is absent, unreadable or without a users mapping. *)
Theorem unknown_user_defaults ios (username : string) (dl : Z) (f : file) :
  stored_users f !! username = None \/ well_formed_store f = false ->
  get_user_pin_hash username f = Ok JNone
  /\ get_user_pin_length ios username dl f = Ok dl.
Proof.
  intros H.
  assert (Hnone : stored_users f !! username = None).
  { destruct H as [H|H]; [exact H|]. rewrite (stored_users_malformed f H). reflexivity. }
  rewrite get_user_pin_hash_stored, get_user_pin_length_stored, Hnone. split; reflexivity.
Qed.

Lemma unknown_user_defaults_witness :
  get_user_pin_hash "alice" (users_json bob_only) = Ok JNone
  /\ get_user_pin_length (fun _ => Raise ValueError) "alice" 4 (Unreadable JSONDecodeError)
     = Ok 4.
Proof.
  split.
  - apply (unknown_user_defaults (fun _ => Raise ValueError) "alice" 4 (users_json bob_only)).
    left. reflexivity.
  - apply (unknown_user_defaults (fun _ => Raise ValueError) "alice" 4
             (Unreadable JSONDecodeError)).
    right. reflexivity.
Defined.

Lemma readers_of_pin_record ios (pin_plain : string) (now : float) (dl : Z) :
  hash_of_record (record_for pin_plain now) = Ok (JStr (hashlib.sha256_hexdigest pin_plain))
  /\ length_of_record ios dl (record_for pin_plain now) = Ok (py_len pin_plain).
Proof. split; reflexivity. Qed.

(** After [set_user_pin u pin] with a PIN that can be encoded, on a file
    that can be written and read and whatever it held, and when [json.dump]
    raises nothing on the store with the new record, [set_user_pin] returns
    and the readers give back the digest of [pin] and its length for [u]. *)
Theorem set_then_read ios dump (u pin_plain : string) (now : float) (dl : Z) (fs : fsys) :
  encodable pin_plain = true ->
  writable fs = true ->
  readable fs = true ->
  dump (store_to_write u pin_plain now fs) = None ->
  let r := set_user_pin dump u pin_plain now fs in
  r.1 = Ok tt
  /\ get_user_pin_hash u (readable_file r.2) = Ok (JStr (hashlib.sha256_hexdigest pin_plain))
  /\ get_user_pin_length ios u dl (readable_file r.2) = Ok (py_len pin_plain).
Proof.
  intros Henc Hw Hr Hdump r. subst r.
  rewrite (set_user_pin_written dump u pin_plain now fs Henc Hw Hdump). cbn [fst snd].
  rewrite get_user_pin_hash_stored, get_user_pin_length_stored.
  rewrite (stored_users_written u pin_plain now fs Hr), lookup_insert_eq.
  split; [reflexivity|]. split; reflexivity.
Qed.

Lemma set_then_read_witness :
  get_user_pin_hash "alice"
    (readable_file (set_user_pin strict_dump_error "alice" "0101" 1700000000 bob_only).2)
  = Ok (JStr (hashlib.sha256_hexdigest "0101")).
Proof.
  exact (proj1 (proj2 (set_then_read (fun _ => Raise ValueError) strict_dump_error "alice"
                         "0101" 1700000000%float 4 bob_only eq_refl eq_refl eq_refl
                         eq_refl))).
Defined.

(** [set_user_pin u] changes what the readers return for no other username,
    whatever the file holds, as long as [json.dump] raises nothing while
    writing: that is so when the PIN cannot be encoded or the file cannot be
    opened for writing (nothing is written), and when the write goes
    through. When [json.dump] raises while writing, both readers find no
    record for any username afterwards. *)
Theorem set_leaves_other_readers ios dump (u u' pin_plain : string) (now : float)
    (dl : Z) (fs : fsys) :
  let f' := readable_file (set_user_pin dump u pin_plain now fs).2 in
  let db := store_to_write u pin_plain now fs in
  (u' <> u ->
   (encodable pin_plain = true -> writable fs = true -> dump db = None) ->
   get_user_pin_hash u' f' = get_user_pin_hash u' (readable_file fs)
   /\ get_user_pin_length ios u' dl f' = get_user_pin_length ios u' dl (readable_file fs))
  /\ (encodable pin_plain = true -> writable fs = true -> dump db <> None ->
      get_user_pin_hash u' f' = Ok JNone
      /\ get_user_pin_length ios u' dl f' = Ok dl).
Proof.
  intros f' db. subst f' db.
  rewrite !get_user_pin_hash_stored, !get_user_pin_length_stored.
  split.
  - intros Hne Hdump.
    enough (Hs : stored_users (readable_file (set_user_pin dump u pin_plain now fs).2) !! u'
                 = stored_users (readable_file fs) !! u')
      by (rewrite Hs; split; reflexivity).
    destruct (encodable pin_plain) eqn:Henc;
      [|rewrite (set_user_pin_bad_pin dump u pin_plain now fs Henc); reflexivity].
    destruct (set_user_pin_cases dump u pin_plain now fs Henc) as (_ & Hro & Hok & _).
    destruct (writable fs) eqn:Hw; [|rewrite (Hro eq_refl); reflexivity].
    destruct (Hok eq_refl (Hdump eq_refl eq_refl)) as [_ ->].
    destruct (readable fs) eqn:Hr.
    + apply lookup_insert_ne. congruence.
    + rewrite (stored_users_unreadable fs Hr). reflexivity.
  - intros Henc Hw Hdump.
    destruct (set_user_pin_cases dump u pin_plain now fs Henc) as (_ & _ & _ & Hcut).
    destruct (dump (store_to_write u pin_plain now fs)) as [e|] eqn:He; [|congruence].
    destruct (Hcut Hw e eq_refl) as [_ ->]. split; reflexivity.
Qed.

Lemma set_leaves_other_readers_witness :
  get_user_pin_hash "bob"
    (readable_file (set_user_pin strict_dump_error "alice" "0101" 1700000000 bob_only).2)
  = Ok (JStr (hashlib.sha256_hexdigest "0110"))
  /\ get_user_pin_hash "bob"
       (readable_file
          (set_user_pin strict_dump_error surrogate_name "0101" 1700000000 bob_only).2)
     = Ok JNone.
Proof.
  split.
  - rewrite (proj1 (proj1 (set_leaves_other_readers (fun _ => Raise ValueError)
                             strict_dump_error "alice" "bob" "0101" 1700000000%float 4
                             bob_only)
                      ltac:(discriminate) (fun _ _ => eq_refl))).
    vm_compute. reflexivity.
  - apply (proj2 (set_leaves_other_readers (fun _ => Raise ValueError)
                    strict_dump_error surrogate_name "bob" "0101" 1700000000%float 4
                    bob_only)); [reflexivity|reflexivity|].
    vm_compute. discriminate.
Defined.

(** The shape of a record decides what the readers do. An object gives its
    "pin_hash" entry or [None], and the int of its "pin_length" entry or the
    default length (the empty object counts as no record, which gives the
    same). A value that Python counts as false ([null], 0, "", [[]]) is taken
    as no record; any other value makes both readers raise [AttributeError],
    which [load_users] does not prevent. *)
Theorem readers_by_record_shape ios (username : string) (dl : Z) (f : file) (v : json) :
  stored_users f !! username = Some v ->
  match v with
  | JDict r =>
      get_user_pin_hash username f = Ok (default JNone (r !! "pin_hash"))
      /\ get_user_pin_length ios username dl f
         = py_int ios (default (JInt dl) (r !! "pin_length"))
  | _ =>
      if truthy v
      then get_user_pin_hash username f = Raise AttributeError
           /\ get_user_pin_length ios username dl f = Raise AttributeError
      else get_user_pin_hash username f = Ok JNone
           /\ get_user_pin_length ios username dl f = Ok dl
  end.
Proof.
  intros Hv. rewrite get_user_pin_hash_stored, get_user_pin_length_stored, Hv.
  cbn [from_option id]. unfold hash_of_record, length_of_record.
  destruct v as [|b|n|x|s|l|r]; try (destruct (truthy _); split; reflexivity).
  destruct (truthy (JDict r)) eqn:Ht; cbn [negb]; [split; reflexivity|].
  cbn [truthy] in Ht. apply negb_false_iff, bool_decide_eq_true in Ht. subst r.
  split; reflexivity.
Qed.

(** The file [{"users": {"bob": 5, "eve": {"pin_length": "4"}}}] *)
Definition odd_records : file :=
  Holds (JDict {[ "users" :=
    JDict {[ "bob" := JInt 5; "eve" := JDict {[ "pin_length" := JStr "4" ]} ]} ]}).

Lemma readers_by_record_shape_witness :
  get_user_pin_hash "bob" odd_records = Raise AttributeError
  /\ get_user_pin_hash "eve" odd_records = Ok JNone
  /\ get_user_pin_length (fun _ => Ok 4) "eve" 6 odd_records = Ok 4.
Proof.
  split.
  - exact (proj1 (readers_by_record_shape (fun _ => Ok 4) "bob" 6
                    odd_records (JInt 5) eq_refl)).
  - exact (readers_by_record_shape (fun _ => Ok 4) "eve" 6 odd_records
             (JDict {[ "pin_length" := JStr "4" ]}) eq_refl).
Defined.

(** The latest write wins and leaves no history: after a registration of
    [u] that went through, a second registration of [u] does what it would
    have done on the file as it was before the first, whether it goes
    through or not. *)
Theorem latest_write_wins dump (u pin1 pin2 : string) (now1 now2 : float) (fs : fsys) :
  encodable pin1 = true ->
  encodable pin2 = true ->
  writable fs = true ->
  dump (store_to_write u pin1 now1 fs) = None ->
  let fs1 := (set_user_pin dump u pin1 now1 fs).2 in
  set_user_pin dump u pin2 now2 fs1 = set_user_pin dump u pin2 now2 fs.
Proof.
  intros Henc1 Henc2 Hw Hdump fs1. subst fs1.
  rewrite (set_user_pin_written dump u pin1 now1 fs Henc1 Hw Hdump). cbn [snd].
  rewrite (proj1 (set_user_pin_saves dump u pin2 now2 _ Henc2)).
  rewrite (proj1 (set_user_pin_saves dump u pin2 now2 fs Henc2)).
  assert (Hsame : store_to_write u pin2 now2 (written (store_to_write u pin1 now1 fs) fs)
                  = store_to_write u pin2 now2 fs).
  { destruct (readable fs) eqn:Hr.
    - destruct (store_to_write_written u u pin1 pin2 now1 now2 fs Hr) as (d & Hload & ->).
      rewrite insert_insert_eq. unfold store_to_write. rewrite Hload. reflexivity.
    - rewrite !store_to_write_unreadable by assumption. reflexivity. }
  rewrite Hsame. unfold save_users, written. cbn [writable readable]. rewrite Hw.
  reflexivity.
Qed.

Lemma latest_write_wins_witness :
  stored_users
    (readable_file (set_user_pin strict_dump_error "bob" "0101" 1700000000 bob_only).2)
  !! "bob"
  = Some (record_for "0101" 1700000000).
Proof.
  rewrite <- (latest_write_wins strict_dump_error "bob" "1111" "0101" 1650000000%float
                1700000000%float bob_only eq_refl eq_refl eq_refl
                ltac:(vm_compute; reflexivity)).
  vm_compute. reflexivity.
Defined.

(** Registrations of two different usernames end the same in either order:
    on a file that can be written and read, when the first registration of
    each order goes through, the second of each order hands the same store
    to [save_users], with the same result and the same file. *)
Theorem registrations_commute dump (u1 u2 pin1 pin2 : string) (now1 now2 : float)
    (fs : fsys) :
  u1 <> u2 ->
  encodable pin1 = true ->
  encodable pin2 = true ->
  writable fs = true ->
  readable fs = true ->
  dump (store_to_write u1 pin1 now1 fs) = None ->
  dump (store_to_write u2 pin2 now2 fs) = None ->
  set_user_pin dump u2 pin2 now2 (set_user_pin dump u1 pin1 now1 fs).2
  = set_user_pin dump u1 pin1 now1 (set_user_pin dump u2 pin2 now2 fs).2.
Proof.
  intros Hne Henc1 Henc2 Hw Hr Hd1 Hd2.
  rewrite (set_user_pin_written dump u1 pin1 now1 fs Henc1 Hw Hd1).
  rewrite (set_user_pin_written dump u2 pin2 now2 fs Henc2 Hw Hd2). cbn [snd].
  rewrite (proj1 (set_user_pin_saves dump u2 pin2 now2 _ Henc2)).
  rewrite (proj1 (set_user_pin_saves dump u1 pin1 now1 _ Henc1)).
  destruct (store_to_write_written u1 u2 pin1 pin2 now1 now2 fs Hr) as (d & Hload & ->).
  destruct (store_to_write_written u2 u1 pin2 pin1 now2 now1 fs Hr) as (d' & Hload' & ->).
  assert (d' = d) by congruence. subst d'.
  rewrite (insert_insert_ne (stored_users (readable_file fs)) u2 u1) by congruence.
  unfold save_users, written. cbn [writable readable]. reflexivity.
Qed.

Lemma registrations_commute_witness :
  set_user_pin strict_dump_error "carol" "1100" 1700000100
    (set_user_pin strict_dump_error "alice" "0101" 1700000000 bob_only).2
  = set_user_pin strict_dump_error "alice" "0101" 1700000000
      (set_user_pin strict_dump_error "carol" "1100" 1700000100 bob_only).2.
Proof.
  apply registrations_commute;
    [discriminate|reflexivity|reflexivity|reflexivity|reflexivity| |];
    vm_compute; reflexivity.
Defined.

(** ** The digest *)

Definition is_hex_char (c : Ascii.ascii) : bool :=
  let n := Z.of_N (Ascii.N_of_ascii c) in
  ((48 <=? n) && (n <=? 57)) || ((97 <=? n) && (n <=? 102)).

Lemma hex_digit_is_hex (x : Z) : is_hex_char (hashlib.hex_digit (Z.land x 0xf)) = true.
Proof.
  change 0xf with (Z.ones 4). rewrite Z.land_ones by lia.
  pose proof (Z.mod_pos_bound x (2 ^ 4) ltac:(lia)) as Hd.
  set (d := x mod 2 ^ 4) in *. change (2 ^ 4) with 16 in Hd.
  assert (Hcases : d = 0 \/ d = 1 \/ d = 2 \/ d = 3 \/ d = 4 \/ d = 5 \/ d = 6 \/ d = 7
                   \/ d = 8 \/ d = 9 \/ d = 10 \/ d = 11 \/ d = 12 \/ d = 13 \/ d = 14
                   \/ d = 15) by lia.
  clearbody d. clear Hd.
  repeat (destruct Hcases as [->|Hcases]; [reflexivity|]). subst d. reflexivity.
Qed.

Lemma round_length (v : list Z) (kw : Z * Z) :
  length v = 8%nat -> length (hashlib.round v kw) = 8%nat.
Proof.
  intros Hlen.
  destruct v as [|a [|b [|c [|d [|e [|f [|g [|h [|]]]]]]]]]; try discriminate Hlen.
  reflexivity.
Qed.

Lemma compress_length (h block : list Z) :
  length h = 8%nat -> length (hashlib.compress h block) = 8%nat.
Proof.
  intros Hlen. unfold hashlib.compress. rewrite length_zip_with.
  assert (Hv : forall kws v, length v = 8%nat ->
            length (fold_left hashlib.round kws v) = 8%nat).
  { induction kws as [|kw kws IH]; intros v Hv; simpl; [exact Hv|].
    apply IH, round_length, Hv. }
  rewrite (Hv _ h Hlen). lia.
Qed.

Lemma sha256_hexdigest_hex (msg : string) :
  String.length (hashlib.sha256_hexdigest msg) = 64%nat
  /\ Forall (fun c => is_hex_char c = true)
            (String.list_ascii_of_string (hashlib.sha256_hexdigest msg)).
Proof.
  unfold hashlib.sha256_hexdigest.
  set (ws := hashlib.words _).
  assert (Hlen : forall bs h, length h = 8%nat ->
            length (fold_left hashlib.compress bs h) = 8%nat).
  { induction bs as [|b bs IH]; intros h Hh; simpl; [exact Hh|].
    apply IH, compress_length, Hh. }
  specialize (Hlen (hashlib.blocks (length ws) ws) hashlib.H0 eq_refl).
  destruct (fold_left hashlib.compress _ _)
    as [|a [|b [|c [|d [|e [|f [|g [|h [|]]]]]]]]]; try discriminate Hlen.
  split; [reflexivity|].
  cbv [map hashlib.hex_word seq String.concat String.string_of_list_ascii String.append
       String.list_ascii_of_string].
  repeat constructor; apply hex_digit_is_hex.
Qed.

(** The digest that [hash_pin] computes has 64 characters, each a digit or
    a letter from [a] to [f], whatever the bytes of the string; [hash_pin]
    returns it for every string that UTF-8 can encode, and for a string with
    a lone surrogate [pin.encode()] raises [UnicodeEncodeError]. *)
Theorem hash_pin_is_hex_digest (pin : string) :
  (String.length (hashlib.sha256_hexdigest pin) = 64%nat
   /\ Forall (fun c => is_hex_char c = true)
             (String.list_ascii_of_string (hashlib.sha256_hexdigest pin)))
  /\ hash_pin pin
     = if encodable pin then Ok (hashlib.sha256_hexdigest pin) else Raise UnicodeEncodeError.
Proof. split; [apply sha256_hexdigest_hex|reflexivity]. Qed.

(** ** How the capture loop ends and what [main] stores *)

(** One pass without a face in the frame. *)
Definition no_face_pass (t : float) : frame_input :=
  {| ret := true; multi_face_landmarks := []; current_time := t; waitKey := -1 |}.

(** A pass in which no face is found neither advances nor resets the
    detector: with no reset key pressed, the sequence, the counter, the
    confirmed flag, both times and the smoothing window come out as they went
    in, whatever the clock shows. Nor does a pass whose frame read fails,
    which ends the loop with every variable as it was. *)
Theorem pass_without_sample_freezes_detector pr (i : frame_input) (st st' : State)
    (out : list output) (brk : bool) :
  multi_face_landmarks i = [] \/ ret i = false ->
  Z.land (waitKey i) 0xff <> ord_r ->
  loop_body pr i st = Ok (st', out, brk) ->
  blink_sequence st' = blink_sequence st
  /\ consec_blinks st' = consec_blinks st
  /\ is_blinking st' = is_blinking st
  /\ blink_start_time st' = blink_start_time st
  /\ last_blink_time st' = last_blink_time st
  /\ ear_history st' = ear_history st
  /\ (ret i = false -> st' = st /\ brk = true).
Proof.
  intros Hno Hkey. unfold loop_body.
  destruct (ret i) eqn:Hret; cbn [negb].
  - destruct Hno as [Hno|Hno]; [|discriminate]. rewrite Hno.
    cbn [process_faces mbind result_bind].
    destruct (Z.land (waitKey i) 255 =? ord_q).
    + intros [= <- _ _]. repeat split; try reflexivity; discriminate.
    + destruct (Z.eqb_spec (Z.land (waitKey i) 255) ord_r) as [Hr|_]; [contradiction|].
      destruct (MAX_BLINKS <=? _); intros [= <- _ _];
        repeat split; try reflexivity; discriminate.
  - intros [= <- _ <-]. repeat split; reflexivity.
Qed.

Lemma pass_without_sample_freezes_detector_witness :
  exists st' out brk,
    loop_body NEP50 (no_face_pass 12.25) blinking_since_12 = Ok (st', out, brk)
    /\ consec_blinks st' = 6 /\ is_blinking st' = true.
Proof.
  destruct (loop_body NEP50 (no_face_pass 12.25) blinking_since_12)
    as [[[st' out] brk]|] eqn:H; [|discriminate H].
  exists st', out, brk. split; [reflexivity|].
  destruct (pass_without_sample_freezes_detector NEP50 (no_face_pass 12.25)
              blinking_since_12 st' out brk (or_introl eq_refl)
              ltac:(vm_compute; discriminate) H) as (_ & Hc & Hb & _).
  rewrite Hc, Hb. split; reflexivity.
Defined.

Lemma loop_body_exit pr i st st' out :
  seq_len st <= MAX_BLINKS ->
  loop_body pr i st = Ok (st', out, true) ->
  exists out',
    out = out' ++ [ErrorReadFrame] \/ out = out' ++ [QuitRequested]
    \/ (out = out' ++ [CaptureComplete] /\ seq_len st' = MAX_BLINKS).
Proof.
  intros Hle Hbody.
  pose proof (loop_body_seq_len_le pr i st st' out true Hle Hbody) as Hle'.
  revert Hbody. unfold loop_body.
  destruct (ret i); cbn [negb]; [|intros [= <- <-]; exists []; auto].
  match goal with |- context [process_faces pr ?fs ?t ?st0] =>
    destruct (process_faces pr fs t st0) as [[st1 out1]|]; [|discriminate] end.
  cbn [mbind result_bind].
  destruct (Z.land (waitKey i) 255 =? ord_q); [intros [= <- <-]; eauto|].
  destruct (Z.land (waitKey i) 255 =? ord_r).
  - destruct (Z.leb_spec MAX_BLINKS (Z.of_nat (length (blink_sequence
      {| blink_sequence := []; frame_counter := frame_counter st1;
         ear_history := ear_history st1; is_blinking := false;
         blink_start_time := blink_start_time st1;
         last_blink_time := last_blink_time st1; consec_blinks := 0 |}))))
      as [Hge|Hlt]; [|discriminate].
    cbn in Hge. unfold MAX_BLINKS in Hge. lia.
  - destruct (Z.leb_spec MAX_BLINKS (Z.of_nat (length (blink_sequence st1))))
      as [Hge|Hlt]; [|discriminate].
    intros [= <- <-]. exists out1. right. right. split; [reflexivity|].
    unfold seq_len in *. lia.
Qed.

(** The capture loop, started as [main] starts it, is left in three ways
    only: the frame read failed, quit was pressed, or the capture is
    complete, and then the sequence holds exactly [MAX_BLINKS] symbols. *)
Theorem capture_loop_exits pr (inputs : list frame_input) (st : State) (out : list output) :
  capture_loop pr inputs initial_state = Some (Ok (st, out)) ->
  exists out',
    out = out' ++ [ErrorReadFrame] \/ out = out' ++ [QuitRequested]
    \/ (out = out' ++ [CaptureComplete] /\ seq_len st = MAX_BLINKS).
Proof.
  assert (H : forall st0, seq_len st0 <= MAX_BLINKS ->
            capture_loop pr inputs st0 = Some (Ok (st, out)) ->
            exists out',
              out = out' ++ [ErrorReadFrame] \/ out = out' ++ [QuitRequested]
              \/ (out = out' ++ [CaptureComplete] /\ seq_len st = MAX_BLINKS)).
  { revert out; induction inputs as [|i inputs IH]; intros out st0 Hle; simpl;
      [discriminate|].
    destruct (loop_body pr i st0) as [[[st1 out1] [|]]|] eqn:Hbody; try discriminate.
    - intros [= <- <-]. eapply loop_body_exit; eauto.
    - destruct (capture_loop pr inputs st1) as [[[st2 out2]|]|] eqn:Hrest; try discriminate.
      intros [= <- <-].
      destruct (IH out2 st1 (loop_body_seq_len_le _ _ _ _ _ _ Hle Hbody) Hrest)
        as (out' & [->|[->|[-> Hfull]]]);
        exists (out1 ++ out'); rewrite app_assoc; auto. }
  apply H. unfold seq_len, MAX_BLINKS. simpl. lia.
Qed.

(** A pass in which the camera gives no frame. *)
Definition failed_read : frame_input :=
  {| ret := false; multi_face_landmarks := []; current_time := 100%float; waitKey := -1 |}.

Lemma capture_loop_exits_witness :
  exists st out out',
    capture_loop NEP50 [no_face_pass 99.5; failed_read] initial_state = Some (Ok (st, out))
    /\ (out = out' ++ [ErrorReadFrame] \/ out = out' ++ [QuitRequested]
        \/ (out = out' ++ [CaptureComplete] /\ seq_len st = MAX_BLINKS)).
Proof.
  destruct (capture_loop NEP50 [no_face_pass 99.5; failed_read] initial_state)
    as [[[st out]|e]|] eqn:Hloop; try discriminate Hloop.
  destruct (capture_loop_exits NEP50 _ st out Hloop) as [out' H].
  exists st, out, out'. split; [reflexivity|exact H].
Defined.

(** Whatever [main] is given, when it returns the file is as it was, unless
    the username was not empty, the camera opened and the capture loop ended
    with exactly [MAX_BLINKS] symbols: then it has called [set_user_pin] once,
    with the 4 digits of those symbols. *)
Theorem main_stores_only_complete dump pr (username : string) (camera_opened : bool)
    (inputs : list frame_input) (now : float) (fs fs' : fsys)
    (r : result unit) (out : list output) :
  main dump pr username camera_opened inputs now fs = Some (r, out, fs') ->
  fs' = fs
  \/ exists st out0,
       username <> "" /\ camera_opened = true
       /\ capture_loop pr inputs initial_state = Some (Ok (st, out0))
       /\ length (blink_sequence st) = 4%nat
       /\ String.length (pin_str_of (blink_sequence st)) = 4%nat
       /\ (r, fs') = set_user_pin dump username (pin_str_of (blink_sequence st)) now fs.
Proof.
  unfold main.
  destruct (String.eqb_spec username "") as [->|Hname]; [intros [= _ _ <-]; auto|].
  destruct camera_opened; cbn [negb]; [|intros [= _ _ <-]; auto].
  destruct (capture_loop pr inputs initial_state) as [[[st out0]|e]|] eqn:Hloop;
    [|intros [= _ _ <-]; auto|discriminate].
  pose proof (capture_loop_seq_len_le pr inputs initial_state st out0
                ltac:(unfold seq_len, MAX_BLINKS; simpl; lia) Hloop) as Hle.
  destruct (Z.leb_spec MAX_BLINKS (Z.of_nat (length (blink_sequence st)))) as [Hge|Hlt];
    [|intros [= _ _ <-]; auto].
  assert (Hfour : length (blink_sequence st) = 4%nat)
    by (unfold seq_len, MAX_BLINKS in *; lia).
  intros Hmain. right. exists st, out0. repeat split; try assumption.
  - rewrite <- Hfour. apply pin_str_of_length.
  - destruct (set_user_pin dump username (pin_str_of (blink_sequence st)) now fs)
      as [[[]|e] fs1]; injection Hmain as <- _ <-; reflexivity.
Qed.

(** The eye of [calculate_ear]'s docstring, wide open. *)
Definition open_eye : list point :=
  [(10, 20); (14, 17); (18, 17); (22, 20); (18, 23); (14, 23)]%float.

(** The pass number [i] of a capture at 16 frames a second that starts at
    100 s, with one face whose eyes are both [eye]. *)
Definition pass_at (i : Z) (eye : list point) (key : Z) : frame_input :=
  {| ret := true;
     multi_face_landmarks := [mkFace eye eye];
     current_time :=
       SF2Prim (binary_normalize FloatOps.prec FloatOps.emax (1600 + i) (-4) false);
     waitKey := key |}.

(** Second [k] of the capture: the eyes closed for [closed] passes and open
    for the rest; [key] is pressed in the third pass after they open. *)
Definition blink_passes (k : Z) (closed : nat) (key : Z) : list frame_input :=
  map (fun j => pass_at (16 * k + Z.of_nat j) closed_eye (-1)) (seq 0 closed)
  ++ map (fun j => pass_at (16 * k + Z.of_nat j) open_eye (-1)) (seq closed 2)
  ++ [pass_at (16 * k + Z.of_nat closed + 2) open_eye key]
  ++ map (fun j => pass_at (16 * k + Z.of_nat j) open_eye (-1))
         (seq (closed + 3) (13 - closed)).

(** A short, a long, a short and a long blink; [q] is pressed in the pass
    that completes the last one. *)
Definition registration_inputs : list frame_input :=
  blink_passes 0 5 (-1) ++ blink_passes 1 9 (-1) ++ blink_passes 2 5 (-1)
  ++ blink_passes 3 9 113.

Lemma main_stores_only_complete_witness :
  exists r out fs',
    main strict_dump_error NEP50 "alice" true registration_inputs 1700000000 bob_only
    = Some (r, out, fs')
    /\ (r, fs') = set_user_pin strict_dump_error "alice" "0101" 1700000000 bob_only.
Proof.
  destruct (main strict_dump_error NEP50 "alice" true registration_inputs 1700000000
              bob_only)
    as [[[r out] fs']|] eqn:Hmain; [|vm_compute in Hmain; discriminate Hmain].
  exists r, out, fs'. split; [reflexivity|].
  destruct (main_stores_only_complete strict_dump_error NEP50 "alice" true
              registration_inputs
              1700000000%float bob_only fs' r out Hmain)
    as [Hsame|(st & out0 & _ & _ & Hloop & _ & _ & Hset)].
  - exfalso. subst fs'. vm_compute in Hmain. discriminate Hmain.
  - vm_compute in Hloop. injection Hloop as <- _. exact Hset.
Defined.

(** Registration end to end: when the loop ends with the sequence
    complete, the file can be written and read and [json.dump] raises nothing
    on the store with the new record, [main] reports success and afterwards
    the readers return, for the username, the digest of the 4-digit PIN and
    the length 4, while every other username keeps its record. The way the
    loop ended does not matter: quit pressed in the completing pass stores
    the PIN all the same. *)
Theorem registration_round_trip ios dump pr (username : string)
    (inputs : list frame_input) (now : float) (fs : fsys) (st : State)
    (out0 : list output) (dl : Z) :
  username <> "" ->
  capture_loop pr inputs initial_state = Some (Ok (st, out0)) ->
  MAX_BLINKS <= seq_len st ->
  writable fs = true ->
  readable fs = true ->
  let pin := pin_str_of (blink_sequence st) in
  dump (store_to_write username pin now fs) = None ->
  exists fs',
    main dump pr username true inputs now fs
    = Some (Ok tt,
            [Banner; CameraInitialized] ++ out0
              ++ [ShowSequence (blink_sequence st) pin; Success username],
            fs')
    /\ get_user_pin_hash username (readable_file fs')
       = Ok (JStr (hashlib.sha256_hexdigest pin))
    /\ get_user_pin_length ios username dl (readable_file fs') = Ok 4
    /\ (forall u', u' <> username ->
          stored_users (readable_file fs') !! u' = stored_users (readable_file fs) !! u').
Proof.
  intros Hname Hloop Hfull Hw Hr pin Hdump.
  pose proof (capture_loop_seq_len_le pr inputs initial_state st out0
                ltac:(unfold seq_len, MAX_BLINKS; simpl; lia) Hloop) as Hle.
  pose proof (set_user_pin_written dump username pin now fs
                (pin_str_of_encodable _) Hw Hdump) as Hset.
  pose proof (stored_users_written username pin now fs Hr) as Hs.
  eexists. split; [|split; [|split]].
  - unfold main.
    destruct (String.eqb_spec username "") as [->|_]; [contradiction|].
    cbn [negb]. rewrite Hloop.
    replace (MAX_BLINKS <=? Z.of_nat (length (blink_sequence st))) with true
      by (symmetry; apply Z.leb_le; exact Hfull).
    fold pin. rewrite Hset. rewrite <- !app_assoc. reflexivity.
  - rewrite get_user_pin_hash_stored, Hs, lookup_insert_eq. cbn [from_option id].
    apply (readers_of_pin_record ios pin now dl).
  - rewrite get_user_pin_length_stored, Hs, lookup_insert_eq. cbn [from_option id].
    rewrite (proj2 (readers_of_pin_record ios pin now dl)).
    unfold pin. rewrite pin_str_of_py_len.
    f_equal. unfold seq_len, MAX_BLINKS in *. lia.
  - intros u' Hne. rewrite Hs. apply lookup_insert_ne. congruence.
Qed.

Lemma registration_round_trip_witness :
  exists fs' out0,
    main strict_dump_error NEP50 "alice" true registration_inputs 1700000000 bob_only
    = Some (Ok tt,
            [Banner; CameraInitialized] ++ out0
              ++ [ShowSequence [quick; long; quick; long] "0101"; Success "alice"],
            fs')
    /\ last out0 = Some QuitRequested
    /\ get_user_pin_hash "alice" (readable_file fs')
       = Ok (JStr (hashlib.sha256_hexdigest "0101")).
Proof.
  destruct (capture_loop NEP50 registration_inputs initial_state)
    as [[[st out0]|e]|] eqn:Hloop; try (vm_compute in Hloop; discriminate Hloop).
  destruct (registration_round_trip (fun _ => Raise ValueError) strict_dump_error NEP50
              "alice" registration_inputs 1700000000%float bob_only st out0 4
              ltac:(discriminate) Hloop
              ltac:(vm_compute in Hloop; injection Hloop as <- _; vm_compute; discriminate)
              eq_refl eq_refl
              ltac:(vm_compute in Hloop; injection Hloop as <- _; vm_compute; reflexivity))
    as (fs' & Hmain & Hhash & _).
  exists fs', out0. vm_compute in Hloop. injection Hloop as <- <-.
  split; [exact Hmain|]. split; [reflexivity|exact Hhash].
Defined.

(** ** Closures too short to count *)

Definition with_consec (st : State) (c : Z) : State :=
  {| blink_sequence := blink_sequence st;
     frame_counter := frame_counter st;
     ear_history := ear_history st;
     is_blinking := is_blinking st;
     blink_start_time := blink_start_time st;
     last_blink_time := last_blink_time st;
     consec_blinks := c |}.

Lemma detect_counts_only (s t : float) (st : State) :
  below_threshold s = true ->
  is_blinking st = false ->
  consec_blinks st + 1 < CONSEC_FRAMES ->
  detect s t st = (with_consec st (consec_blinks st + 1), []).
Proof.
  unfold below_threshold, detect, with_consec. intros -> Hb Hlt. rewrite Hb.
  cbn [negb andb].
  replace (CONSEC_FRAMES <=? consec_blinks st + 1) with false
    by (symmetry; apply Z.leb_gt; exact Hlt).
  reflexivity.
Qed.

Lemma short_closure_counts_only (closure : list sample) (st : State) :
  is_blinking st = false ->
  Forall (fun smp => below_threshold smp.1 = true) closure ->
  consec_blinks st + Z.of_nat (length closure) < CONSEC_FRAMES ->
  run_detector closure st = with_consec st (consec_blinks st + Z.of_nat (length closure))
  /\ blink_events closure st = []
  /\ detector_outputs closure st = [].
Proof.
  revert st; induction closure as [|[s t] rest IH]; intros st Hb Hall Hlt.
  - simpl. rewrite Z.add_0_r. destruct st; auto.
  - inversion_clear Hall as [|? ? Hs Hrest]. cbn [fst snd] in Hs.
    cbn [run_detector blink_events detector_outputs fst snd].
    cbn [length] in Hlt.
    rewrite (detect_counts_only s t st Hs Hb ltac:(lia)).
    rewrite (blink_event_below (s, t) st Hs). cbn [fst snd option_list app].
    destruct (IH (with_consec st (consec_blinks st + 1)) Hb Hrest) as (-> & -> & ->).
    { cbn [with_consec consec_blinks]. lia. }
    repeat split. unfold with_consec. cbn. f_equal. lia.
Qed.

(** Noise shorter than [CONSEC_FRAMES] leaves no trace: from the open state
    with the counter at 0, fewer than [CONSEC_FRAMES] samples below the
    threshold followed by one at or above it bring the detector back to the
    very state it was in, whatever the times of the samples, with no event
    completed and nothing printed. *)
Theorem short_closure_leaves_no_trace
    (st : State) (closure : list sample) (reopen : sample) :
  is_blinking st = false ->
  consec_blinks st = 0 ->
  Forall (fun smp => below_threshold smp.1 = true) closure ->
  Z.of_nat (length closure) < CONSEC_FRAMES ->
  below_threshold reopen.1 = false ->
  run_detector (closure ++ [reopen]) st = st
  /\ blink_events (closure ++ [reopen]) st = []
  /\ detector_outputs (closure ++ [reopen]) st = [].
Proof.
  intros Hb Hc Hall Hlen Hopen.
  destruct (short_closure_counts_only closure st Hb Hall ltac:(lia)) as (Hrun & Hev & Hout).
  assert (Hstep : detect reopen.1 reopen.2 (run_detector closure st) = (st, [])).
  { rewrite Hrun. unfold below_threshold in Hopen. unfold detect. rewrite Hopen.
    cbn [with_consec is_blinking]. rewrite Hb.
    destruct st; cbn in *. subst. reflexivity. }
  assert (Houts : forall l1 l2 st0, detector_outputs (l1 ++ l2) st0
            = detector_outputs l1 st0 ++ detector_outputs l2 (run_detector l1 st0)).
  { induction l1 as [|smp l1 IH]; intros l2 st0; simpl; [reflexivity|].
    rewrite IH, app_assoc. reflexivity. }
  rewrite run_detector_app, blink_events_app, Houts, Hev, Hout.
  cbn [run_detector blink_events detector_outputs app].
  rewrite Hstep, (blink_event_open reopen _ Hopen), Hrun.
  cbn [fst snd with_consec is_blinking]. rewrite Hb. auto.
Qed.

Lemma short_closure_leaves_no_trace_witness :
  run_detector (take 2 three_closed_frames ++ [(0.5, 10.25)%float]) after_first_blink
  = after_first_blink.
Proof.
  apply (short_closure_leaves_no_trace after_first_blink (take 2 three_closed_frames)
           (0.5, 10.25)%float eq_refl eq_refl).
  - repeat constructor.
  - reflexivity.
  - reflexivity.
Defined.
